(** * vmxtool: the dictionary-file core (src/unnamed/part_001, final variant)

    A shallow embedding of [LoadDictionary], [Save], [Print], [Add], [Set],
    [Remove], [Query], [KeyExists] and the Go standard-library string
    functions they call.  Go strings are byte strings: they are modelled as
    Stdlib [string] (a list of 8-bit [ascii] characters). *)

From Stdlib Require Import String Ascii List Bool Arith Lia ZArith.
Import ListNotations.
Local Open Scope string_scope.
Local Open Scope nat_scope.

(** ** Bytes *)
Module Bytes.

Definition byte (c : ascii) : nat := nat_of_ascii c.
Definition zbyte (c : ascii) : Z := Z.of_nat (nat_of_ascii c).

Definition dq : ascii := "034".    (* the double quote *)
Definition bslash : ascii := "092". (* the backslash *)
Definition nl : ascii := "010".    (* newline *)
Definition cr : ascii := "013".    (* carriage return *)
Definition tab : ascii := "009".   (* tab *)
Definition eqc : ascii := "=".
Definition hash : ascii := "#".
Definition sp : ascii := " ".

Definition str1 (c : ascii) : string := String c EmptyString.

End Bytes.
Import Bytes.

(** ** Go's [strings] and [unicode/utf8] functions used by the core *)
Module GoStr.

(** [unicode.IsSpace] on the runes [strings.TrimSpace] looks at, by their
    UTF-8 encodings: '\t' '\n' '\v' '\f' '\r' ' ' (one byte), U+0085 and
    U+00A0 (two bytes), U+1680, U+2000..U+200A, U+2028, U+2029, U+202F,
    U+205F and U+3000 (three bytes). *)
Definition is_ascii_space (c : ascii) : bool :=
  match byte c with
  | 9 | 10 | 11 | 12 | 13 | 32 => true
  | _ => false
  end.

Definition two_byte_space (a b : ascii) : bool :=
  (byte a =? 194) && ((byte b =? 133) || (byte b =? 160)).

Definition three_byte_space (a b c : ascii) : bool :=
  let x := byte a in let y := byte b in let z := byte c in
  ((x =? 225) && (y =? 154) && (z =? 128))
  || ((x =? 226) && (y =? 128)
      && (((128 <=? z) && (z <=? 138)) || (z =? 168) || (z =? 169) || (z =? 175)))
  || ((x =? 226) && (y =? 129) && (z =? 159))
  || ((x =? 227) && (y =? 128) && (z =? 128)).

(** Left trim: drop the leading space runes (decoded forwards). *)
Fixpoint ltrim (l : list ascii) : list ascii :=
  match l with
  | [] => []
  | a :: l1 =>
      if is_ascii_space a then ltrim l1 else
      match l1 with
      | b :: l2 =>
          if two_byte_space a b then ltrim l2 else
          match l2 with
          | c :: l3 => if three_byte_space a b c then ltrim l3 else l
          | [] => l
          end
      | [] => l
      end
  end.

(** Right trim on the reversed byte list: drop the trailing space runes
    (decoded backwards, as [utf8.DecodeLastRuneInString] does). *)
Fixpoint rtrim_rev (l : list ascii) : list ascii :=
  match l with
  | [] => []
  | c :: l1 =>
      if is_ascii_space c then rtrim_rev l1 else
      match l1 with
      | b :: l2 =>
          if two_byte_space b c then rtrim_rev l2 else
          match l2 with
          | a :: l3 => if three_byte_space a b c then rtrim_rev l3 else l
          | [] => l
          end
      | [] => l
      end
  end.

Definition rtrim (l : list ascii) : list ascii := rev (rtrim_rev (rev l)).

(** [strings.TrimSpace] *)
Definition TrimSpace (s : string) : string :=
  string_of_list_ascii (rtrim (ltrim (list_ascii_of_string s))).

(** [strings.TrimRight(s, " \t")]: the cutset is ASCII, so bytes are cut. *)
Definition is_sp_tab (c : ascii) : bool := Ascii.eqb c sp || Ascii.eqb c tab.

Fixpoint drop_sp_tab (l : list ascii) : list ascii :=
  match l with
  | c :: l' => if is_sp_tab c then drop_sp_tab l' else l
  | [] => []
  end.

Definition TrimRightSpTab (s : string) : string :=
  string_of_list_ascii (rev (drop_sp_tab (rev (list_ascii_of_string s)))).

(** [strings.SplitN(s, sep, 2)] for a one-byte separator: [None] when the
    result has one part (no separator), else the two parts. *)
Fixpoint split_first (c : ascii) (s : string) : option (string * string) :=
  match s with
  | EmptyString => None
  | String x s' =>
      if Ascii.eqb x c then Some (EmptyString, s')
      else match split_first c s' with
           | Some (a, b) => Some (String x a, b)
           | None => None
           end
  end.

(** [strings.Contains(s, sep)] for a one-byte separator *)
Definition contains (c : ascii) (s : string) : bool :=
  match split_first c s with Some _ => true | None => false end.

(** [strings.HasPrefix(s, p)] for a one-byte prefix *)
Definition has_prefix (c : ascii) (s : string) : bool :=
  match s with String x _ => Ascii.eqb x c | EmptyString => false end.

(** [strings.Index(s, sep)] for a one-byte separator; [None] is [-1]. *)
Fixpoint index (c : ascii) (s : string) : option nat :=
  match s with
  | EmptyString => None
  | String x s' =>
      if Ascii.eqb x c then Some 0
      else match index c s' with Some i => Some (S i) | None => None end
  end.

(** Go slices [s[a:b]] and [s[a:]] (always in range where the code uses them). *)
Definition slice (a b : nat) (s : string) : string := substring a (b - a) s.
Definition slice_from (a : nat) (s : string) : string :=
  substring a (String.length s - a) s.

(** [escapeQuotes]: [strings.ReplaceAll] of every double quote by backslash,
    double quote. *)
Fixpoint escapeQuotes (s : string) : string :=
  match s with
  | EmptyString => EmptyString
  | String c s' =>
      if Ascii.eqb c dq then String bslash (String dq (escapeQuotes s'))
      else String c (escapeQuotes s')
  end.

(** [unescapeQuotes]: [strings.ReplaceAll] of every backslash, double quote
    pair by a double quote; leftmost, non-overlapping occurrences. *)
Fixpoint unescapeQuotes (s : string) : string :=
  match s with
  | EmptyString => EmptyString
  | String c s' =>
      if Ascii.eqb c bslash then
        match s' with
        | String d s'' =>
            if Ascii.eqb d dq then String dq (unescapeQuotes s'')
            else String c (unescapeQuotes s')
        | EmptyString => String c EmptyString
        end
      else String c (unescapeQuotes s')
  end.

End GoStr.
Import GoStr.

(** ** UTF-8 and case mapping: [strings.ToLower] and [strings.EqualFold] *)
Module GoCase.

Local Open Scope Z_scope.

Definition RuneError : Z := 65533.
Definition MaxRune : Z := 1114111.

(** [utf8.DecodeRuneInString]: the rune and its width; every invalid or
    truncated sequence decodes to [(RuneError, 1)]. *)
Definition decode_rune (s : list ascii) : Z * nat :=
  match s with
  | [] => (RuneError, 0%nat)
  | c0 :: rest =>
      let p0 := zbyte c0 in
      if p0 <? 128 then (p0, 1%nat)
      else if (p0 <? 194) || (244 <? p0) then (RuneError, 1%nat)
      else
        let lo := if p0 =? 224 then 160 else if p0 =? 240 then 144 else 128 in
        let hi := if p0 =? 237 then 159 else if p0 =? 244 then 143 else 191 in
        let cont (c : ascii) := (128 <=? zbyte c) && (zbyte c <=? 191) in
        match rest with
        | c1 :: rest1 =>
            let s1 := zbyte c1 in
            if (s1 <? lo) || (hi <? s1) then (RuneError, 1%nat)
            else if p0 <? 224 then
              (Z.lor (Z.shiftl (Z.land p0 31) 6) (Z.land s1 63), 2%nat)
            else
              match rest1 with
              | c2 :: rest2 =>
                  if negb (cont c2) then (RuneError, 1%nat)
                  else if p0 <? 240 then
                    (Z.lor (Z.lor (Z.shiftl (Z.land p0 15) 12)
                                  (Z.shiftl (Z.land s1 63) 6))
                           (Z.land (zbyte c2) 63), 3%nat)
                  else
                    match rest2 with
                    | c3 :: _ =>
                        if negb (cont c3) then (RuneError, 1%nat)
                        else (Z.lor (Z.lor (Z.lor (Z.shiftl (Z.land p0 7) 18)
                                                  (Z.shiftl (Z.land s1 63) 12))
                                           (Z.shiftl (Z.land (zbyte c2) 63) 6))
                                    (Z.land (zbyte c3) 63), 4%nat)
                    | [] => (RuneError, 1%nat)
                    end
              | [] => (RuneError, 1%nat)
              end
        | [] => (RuneError, 1%nat)
        end
  end.

(** [for _, r := range s]: the runes of a byte string. *)
Fixpoint runes_fuel (fuel : nat) (s : list ascii) : list Z :=
  match fuel with
  | O => []
  | S f =>
      match s with
      | [] => []
      | _ => let (r, w) := decode_rune s in r :: runes_fuel f (skipn w s)
      end
  end.

Definition runes (s : list ascii) : list Z := runes_fuel (length s) s.

Definition zascii (z : Z) : ascii := ascii_of_nat (Z.to_nat z).

(** [utf8.EncodeRune] (as used by [strings.Builder.WriteRune]) *)
Definition encode_rune (r : Z) : list ascii :=
  if (0 <=? r) && (r <? 128) then [zascii r]
  else if (0 <=? r) && (r <? 2048) then
    [zascii (Z.lor 192 (Z.shiftr r 6)); zascii (Z.lor 128 (Z.land r 63))]
  else
    let r := if (r <? 0) || (MaxRune <? r) || ((55296 <=? r) && (r <=? 57343))
             then RuneError else r in
    if r <? 65536 then
      [zascii (Z.lor 224 (Z.shiftr r 12));
       zascii (Z.lor 128 (Z.land (Z.shiftr r 6) 63));
       zascii (Z.lor 128 (Z.land r 63))]
    else
      [zascii (Z.lor 240 (Z.shiftr r 18));
       zascii (Z.lor 128 (Z.land (Z.shiftr r 12) 63));
       zascii (Z.lor 128 (Z.land (Z.shiftr r 6) 63));
       zascii (Z.lor 128 (Z.land r 63))].

(** Go's Unicode case tables for runes from U+0080 on: [unicode.ToLower]'s
    [CaseRanges] lookup and [unicode.SimpleFold]'s [caseOrbit] lookup with
    its [ToLower]/[ToUpper] fallback.  The ASCII parts of both functions are
    written out below; the operations are generic in these tables. *)
Class CaseTables := {
  lower_table : Z -> Z;
  fold_table : Z -> Z
}.

Section WithTables.
Context {CT : CaseTables}.

(** [unicode.ToLower] *)
Definition unicode_ToLower (r : Z) : Z :=
  if r <=? 127 then (if (65 <=? r) && (r <=? 90) then r + 32 else r)
  else lower_table r.

(** [unicode.SimpleFold]; the ASCII entries are Go's [asciiFold] table,
    which sends 'k' to U+212A KELVIN SIGN and 's' to U+017F LONG S. *)
Definition SimpleFold (r : Z) : Z :=
  if (r <? 0) || (MaxRune <? r) then r
  else if r <? 128 then
    (if (65 <=? r) && (r <=? 90) then r + 32
     else if r =? 107 then 8490
     else if r =? 115 then 383
     else if (97 <=? r) && (r <=? 122) then r - 32
     else r)
  else fold_table r.

Definition ascii_lower (c : ascii) : ascii :=
  if ((65 <=? zbyte c) && (zbyte c <=? 90)) then zascii (zbyte c + 32) else c.

(** [strings.ToLower]: ASCII fast path, else [strings.Map(unicode.ToLower, s)]
    (invalid bytes decode to [RuneError]; negative results are dropped). *)
Definition ToLower (s : string) : string :=
  let l := list_ascii_of_string s in
  if forallb (fun c => zbyte c <? 128) l then string_of_list_ascii (map ascii_lower l)
  else string_of_list_ascii
         (flat_map (fun r => let m := unicode_ToLower r in
                             if m <? 0 then [] else encode_rune m) (runes l)).

(** The orbit walk of [strings.EqualFold]:
    [for r != sr && r < tr { r = unicode.SimpleFold(r) }].  Go's orbits have
    at most four runes, so eight steps of fuel never run out on Go's tables. *)
Fixpoint fold_walk (fuel : nat) (sr tr r : Z) : Z :=
  match fuel with
  | O => r
  | S f => if negb (r =? sr) && (r <? tr) then fold_walk f sr tr (SimpleFold r) else r
  end.

(** The rune loop of [strings.EqualFold] (label [hasUnicode]). *)
Fixpoint equal_fold_runes (ss ts : list Z) : bool :=
  match ss, ts with
  | [], [] => true
  | [], _ :: _ => false
  | _ :: _, [] => false
  | sr0 :: ss', tr0 :: ts' =>
      if sr0 =? tr0 then equal_fold_runes ss' ts' else
      let sr := Z.min sr0 tr0 in
      let tr := Z.max sr0 tr0 in
      if tr <? 128 then
        (if (65 <=? sr) && (sr <=? 90) && (tr =? sr + 32)
         then equal_fold_runes ss' ts' else false)
      else if fold_walk 8 sr tr (SimpleFold sr) =? tr
      then equal_fold_runes ss' ts' else false
  end.

(** The ASCII loop of [strings.EqualFold]; on the first byte >= 0x80 in
    either string it continues with the rune loop on the remainders. *)
Fixpoint equal_fold_bytes (s t : list ascii) : bool :=
  match s, t with
  | c :: s', d :: t' =>
      if (128 <=? zbyte c) || (128 <=? zbyte d) then
        equal_fold_runes (runes s) (runes t)
      else if zbyte c =? zbyte d then equal_fold_bytes s' t'
      else
        let sr := Z.min (zbyte c) (zbyte d) in
        let tr := Z.max (zbyte c) (zbyte d) in
        if (65 <=? sr) && (sr <=? 90) && (tr =? sr + 32)
        then equal_fold_bytes s' t' else false
  | [], [] => true
  | _, _ => false
  end.

(** [strings.EqualFold] *)
Definition EqualFold (s t : string) : bool :=
  equal_fold_bytes (list_ascii_of_string s) (list_ascii_of_string t).

End WithTables.
End GoCase.
Import GoCase.

(** ** The dictionary model (src/unnamed/part_001, lines 500-790) *)
Module Vmx.

(** [type Entry struct] *)
Record Entry := mkEntry {
  Original : string;            (* original line, comments and whitespace *)
  Key : string;                 (* empty for comments and blank lines *)
  Value : string;
  InlineComment : string;       (* including its leading '#' *)
  InlineCommentSpace : string;  (* whitespace between value and '#' *)
  IsComment : bool;
  IsBlank : bool
}.

(** [type Dictionary struct]; [Entries] is a slice of [*Entry] whose
    pointers never escape, so it is a list of values here. *)
Record Dictionary := mkDict {
  Filename : string;
  Entries : list Entry
}.

(** Results of the fallible operations.  [ErrKeyExists] and [ErrKeyNotExist]
    are the [fmt.Errorf] errors "key '%s' already exists" and
    "key '%s' does not exist"; [ErrTooLong] is [bufio.ErrTooLong];
    [ErrOpen] is an [os.Open] failure other than a missing file. *)
Inductive error :=
| ErrKeyExists (key : string)
| ErrKeyNotExist (key : string)
| ErrTooLong
| ErrOpen.

Inductive result (A : Type) :=
| Ok (a : A)
| Err (e : error).
Arguments Ok {A} a.
Arguments Err {A} e.

(** What [os.Open(filename)] finds.  [Contents] is a file that opens and
    reads without an I/O error; a read error after a successful open (the
    [scanner.Err()] of, say, a directory) is not modelled. *)
Inductive FileState :=
| NotExist
| OpenFails
| Contents (bytes : string).

(** [findClosingQuote(s, startIdx)]: [prev] is [s[i-1]] when [i > 0];
    [None] is the result [-1]. *)
Fixpoint scan_quote (prev : option ascii) (s : string) (i : nat) : option nat :=
  match s with
  | EmptyString => None
  | String c s' =>
      let escaped := match prev with Some p => Ascii.eqb p bslash | None => false end in
      if Ascii.eqb c dq && negb escaped then Some i
      else scan_quote (Some c) s' (S i)
  end.

Definition findClosingQuote (s : string) (startIdx : nat) : option nat :=
  scan_quote (match startIdx with O => None | S k => String.get k s end)
             (slice_from startIdx s) startIdx.

Definition blank_entry (original : string) : Entry :=
  mkEntry original "" "" "" "" false true.
Definition comment_entry (original : string) : Entry :=
  mkEntry original "" "" "" "" true false.

(** The value part of an assignment, [valueAndComment], split into
    [(value, inlineComment, inlineCommentSpace)]. *)
Definition parse_value (vac : string) : string * string * string :=
  if has_prefix dq vac then
    match findClosingQuote vac 1 with
    | Some endQuoteIdx =>
        let value := unescapeQuotes (slice 1 endQuoteIdx vac) in
        let remainder := slice_from (S endQuoteIdx) vac in
        if 0 <? String.length remainder then
          match index hash remainder with
          | Some commentIdx =>
              (value, slice_from commentIdx remainder, slice 0 commentIdx remainder)
          | None => (value, "", "")
          end
        else (value, "", "")
    | None => (vac, "", "")
    end
  else
    match index hash vac with
    | Some commentIdx =>
        let value := TrimSpace (slice 0 commentIdx vac) in
        let beforeComment := slice 0 commentIdx vac in
        let space :=
          if String.length value <? String.length beforeComment
          then slice_from (String.length value) beforeComment else "" in
        (value, slice_from commentIdx vac, space)
    | None => (vac, "", "")
    end.

(** The body of the scanning loop of [LoadDictionary]: one line. *)
Definition parse_line (original : string) : Entry :=
  let trimmed := TrimSpace original in
  if String.eqb trimmed "" then blank_entry original
  else if has_prefix hash trimmed then comment_entry original
  else
    match split_first eqc trimmed with
    | None => comment_entry original
    | Some (part0, part1) =>
        let key := TrimSpace part0 in
        let valueAndComment := TrimSpace part1 in
        let '(value, inlineComment, inlineCommentSpace) := parse_value valueAndComment in
        mkEntry original key value inlineComment inlineCommentSpace false false
    end.

(** [bufio.Scanner] with [bufio.ScanLines]: tokens end at each '\n', the
    final token is kept only when non-empty, one trailing '\r' is dropped
    from each token ([dropCR]), and a token of [MaxScanTokenSize] bytes or
    more stops the scan with [ErrTooLong]. *)
Fixpoint split_lines (s : string) : list string :=
  match s with
  | EmptyString => []
  | String c s' =>
      if Ascii.eqb c nl then "" :: split_lines s'
      else match split_lines s' with
           | [] => [str1 c]
           | l :: ls => String c l :: ls
           end
  end.

Definition dropCR (s : string) : string :=
  match rev (list_ascii_of_string s) with
  | c :: rest => if Ascii.eqb c cr then string_of_list_ascii (rev rest) else s
  | [] => s
  end.

Definition MaxScanTokenSize : nat := 65536.

Definition scan_lines (bytes : string) : result (list string) :=
  let toks := split_lines bytes in
  if existsb (fun t => MaxScanTokenSize <=? String.length t) toks then Err ErrTooLong
  else Ok (map dropCR toks).

(** [LoadDictionary] *)
Definition LoadDictionary (filename : string) (f : FileState) : result Dictionary :=
  match f with
  | NotExist => Ok (mkDict filename [])
  | OpenFails => Err ErrOpen
  | Contents bytes =>
      match scan_lines bytes with
      | Ok ls => Ok (mkDict filename (map parse_line ls))
      | Err e => Err e
      end
  end.

Definition quoted (value : string) : string := str1 dq ++ escapeQuotes value ++ str1 dq.

(** The line [Save] writes for one entry (without its '\n'). *)
Definition save_line (e : Entry) : string :=
  if IsBlank e then ""
  else if IsComment e then Original e
  else if negb (String.eqb (Key e) "") then
    let formattedValue := quoted (Value e) in
    let line :=
      match split_first eqc (Original e) with
      | Some (part0, _) => TrimRightSpTab part0 ++ " = " ++ formattedValue
      | None => Key e ++ " = " ++ formattedValue
      end in
    if negb (String.eqb (InlineComment e) "")
    then line ++ InlineCommentSpace e ++ InlineComment e
    else line
  else Original e.

Definition save_lines (d : Dictionary) : list string := map save_line (Entries d).

Definition unlines (ls : list string) : string :=
  fold_right (fun l acc => l ++ str1 nl ++ acc) "" ls.

(** [Save]: the bytes written to the file (I/O failures are not modelled). *)
Definition Save (d : Dictionary) : string := unlines (save_lines d).

(** The line [Print] writes for one entry with [fmt.Println]. *)
Definition print_line (e : Entry) : string :=
  if IsBlank e then ""
  else if IsComment e then Original e
  else if negb (String.eqb (Key e) "") then
    let line := Key e ++ " = " ++ quoted (Value e) in
    if negb (String.eqb (InlineComment e) "")
    then line ++ InlineCommentSpace e ++ InlineComment e
    else line
  else Original e.

Definition print_lines (d : Dictionary) : list string := map print_line (Entries d).

(** [Print]: the bytes written to standard output. *)
Definition Print (d : Dictionary) : string := unlines (print_lines d).

Fixpoint replace_nth {A} (n : nat) (x : A) (l : list A) : list A :=
  match l, n with
  | [], _ => []
  | _ :: l', O => x :: l'
  | y :: l', S n' => y :: replace_nth n' x l'
  end.

Section Ops.
Context {CT : CaseTables}.

(** [findEntryCaseInsensitive]: the first entry (with its index) whose
    lower-cased key equals the lower-cased [key]. *)
Fixpoint find_from (lowerKey : string) (es : list Entry) (i : nat) : option (nat * Entry) :=
  match es with
  | [] => None
  | e :: es' =>
      if String.eqb (ToLower (Key e)) lowerKey then Some (i, e)
      else find_from lowerKey es' (S i)
  end.

Definition findEntryCaseInsensitive (d : Dictionary) (key : string) : option (nat * Entry) :=
  find_from (ToLower key) (Entries d) 0.

Definition normalizeKeyCase (d : Dictionary) (key : string) : string :=
  match findEntryCaseInsensitive d key with
  | Some (_, e) => Key e
  | None => key
  end.

Definition KeyExists (d : Dictionary) (key : string) : bool :=
  match findEntryCaseInsensitive d key with Some _ => true | None => false end.

Definition new_entry (key value : string) : Entry :=
  mkEntry (key ++ " = " ++ quoted value) key value "" "" false false.

(** [Add] *)
Definition Add (d : Dictionary) (key value : string) : result Dictionary :=
  if KeyExists d key then Err (ErrKeyExists key)
  else Ok (mkDict (Filename d) (app (Entries d) [new_entry key value])).

(** The in-place update of the found entry in [Set]. *)
Definition set_entry (e : Entry) (value : string) : Entry :=
  let original := Key e ++ " = " ++ quoted value in
  let original :=
    if negb (String.eqb (InlineComment e) "")
    then original ++ InlineCommentSpace e ++ InlineComment e else original in
  mkEntry original (Key e) value (InlineComment e) (InlineCommentSpace e)
          (IsComment e) (IsBlank e).

(** [Set] (renamed: [Set] is a Rocq keyword); it returns no error. *)
Definition Set_ (d : Dictionary) (key value : string) : Dictionary :=
  match findEntryCaseInsensitive d key with
  | Some (i, e) => mkDict (Filename d) (replace_nth i (set_entry e value) (Entries d))
  | None =>
      let normalizedKey := normalizeKeyCase d key in
      mkDict (Filename d) (app (Entries d) [new_entry normalizedKey value])
  end.

(** [Remove]: the loop with [strings.EqualFold] and [slices.Delete(i, i+1)]. *)
Fixpoint remove_from (key : string) (es : list Entry) : option (list Entry) :=
  match es with
  | [] => None
  | e :: es' =>
      if EqualFold (Key e) key then Some es'
      else match remove_from key es' with
           | Some rest => Some (e :: rest)
           | None => None
           end
  end.

Definition Remove (d : Dictionary) (key : string) : result Dictionary :=
  match remove_from key (Entries d) with
  | Some es => Ok (mkDict (Filename d) es)
  | None => Err (ErrKeyNotExist key)
  end.

(** [Query] *)
Definition Query (d : Dictionary) (key : string) : result string :=
  match findEntryCaseInsensitive d key with
  | Some (_, e) => Ok (Value e)
  | None => Err (ErrKeyNotExist key)
  end.

End Ops.
End Vmx.
Import Vmx.

(** ** Go's case tables at the runes the concrete runs below use

    [unicode.ToLower] maps U+00C0..U+00DE (except U+00D7) to the rune 0x20
    above and U+0130 to 'i'; [unicode.SimpleFold] maps U+017F (LONG S) to
    'S'.  Every other rune from U+0080 on is mapped to itself here, which is
    Go's behaviour for uncased runes (and for U+017F under [ToLower]); the
    general theorems below hold for every [CaseTables]. *)
#[global] Instance go_case_tables : CaseTables := {|
  lower_table := fun r =>
    if (r =? 304)%Z then 105%Z
    else if ((192 <=? r) && (r <=? 222) && negb (r =? 215))%Z then (r + 32)%Z
    else r;
  fold_table := fun r => if (r =? 383)%Z then 83%Z else r
|}.

(** * Lemmas *)

(** ** Lists: [replace_nth] *)
Module ListFacts.

Lemma replace_nth_length {A} (n : nat) (x : A) (l : list A) :
  length (replace_nth n x l) = length l.
Proof.
  revert n; induction l as [|y l IH]; intros [|n]; simpl; auto.
Qed.

Lemma nth_error_replace_nth_neq {A} (n m : nat) (x : A) (l : list A) :
  m <> n -> nth_error (replace_nth n x l) m = nth_error l m.
Proof.
  revert n m; induction l as [|y l IH]; intros [|n] [|m] Hne; simpl; auto;
    try contradiction.
Qed.

Lemma nth_error_replace_nth_eq {A} (n : nat) (x : A) (l : list A) :
  n < length l -> nth_error (replace_nth n x l) n = Some x.
Proof.
  revert n; induction l as [|y l IH]; intros [|n] Hlt; simpl in *; try lia; auto.
  apply IH; lia.
Qed.

Lemma map_replace_nth {A B} (f : A -> B) (n : nat) (x : A) (l : list A) :
  map f (replace_nth n x l) = replace_nth n (f x) (map f l).
Proof.
  revert n; induction l as [|y l IH]; intros [|n]; simpl; f_equal; auto.
Qed.

Lemma replace_nth_app_last {A} (x y : A) (l : list A) :
  replace_nth (length l) x (app l [y]) = app l [x].
Proof. induction l as [|z l IH]; simpl; f_equal; auto. Qed.

End ListFacts.
Import ListFacts.

(** ** Lookup *)
Module FindFacts.
Section WithTables.
Context {CT : CaseTables}.

Lemma find_from_app_none (lk : string) (l l' : list Entry) (i : nat) :
  find_from lk l i = None ->
  find_from lk (app l l') i = find_from lk l' (i + length l).
Proof.
  revert i; induction l as [|e l IH]; intros i H; simpl in *.
  - now rewrite Nat.add_0_r.
  - destruct (String.eqb (ToLower (Key e)) lk); [discriminate|].
    rewrite IH by exact H. f_equal; lia.
Qed.

Lemma find_from_some (lk : string) (es : list Entry) (i j : nat) (e : Entry) :
  find_from lk es i = Some (j, e) ->
  i <= j /\ nth_error es (j - i) = Some e /\ String.eqb (ToLower (Key e)) lk = true.
Proof.
  revert i; induction es as [|e' es IH]; intros i H; simpl in H; [discriminate|].
  destruct (String.eqb (ToLower (Key e')) lk) eqn:Hk.
  - injection H as <- <-. rewrite Nat.sub_diag. auto.
  - destruct (IH (S i) H) as (Hle & Hn & Hm). split; [lia|split; auto].
    replace (j - i) with (S (j - S i)) by lia. exact Hn.
Qed.

Lemma find_from_keys (lk : string) (es es' : list Entry) (i : nat) :
  map Key es = map Key es' -> find_from lk es i = None -> find_from lk es' i = None.
Proof.
  revert es' i; induction es as [|e es IH]; intros [|e' es'] i Hk H;
    simpl in *; try discriminate; auto.
  injection Hk as Hk1 Hk2. rewrite <- Hk1.
  destruct (String.eqb (ToLower (Key e)) lk); [discriminate|]. eauto.
Qed.

Lemma find_lookup (d : Dictionary) (k : string) (i : nat) (e : Entry) :
  findEntryCaseInsensitive d k = Some (i, e) ->
  nth_error (Entries d) i = Some e /\ i < length (Entries d).
Proof.
  unfold findEntryCaseInsensitive. intros H.
  destruct (find_from_some _ _ _ _ _ H) as (_ & Hn & _).
  rewrite Nat.sub_0_r in Hn. split; auto.
  apply nth_error_Some. congruence.
Qed.

(** [Set] either rewrites the found entry in place or appends one entry. *)
Lemma Set_shape (d : Dictionary) (k v : string) :
  match findEntryCaseInsensitive d k with
  | Some (i, e) => Entries (Set_ d k v) = replace_nth i (set_entry e v) (Entries d)
  | None => Entries (Set_ d k v) = app (Entries d) [new_entry k v]
  end.
Proof.
  unfold Set_, normalizeKeyCase.
  destruct (findEntryCaseInsensitive d k) as [[i e]|]; reflexivity.
Qed.

End WithTables.
End FindFacts.
Import FindFacts.

(** ** Bytes and strings *)
Module StrFacts.

Notation L := list_ascii_of_string.
Notation Str := string_of_list_ascii.

Lemma L_app (s1 s2 : string) : L (s1 ++ s2) = app (L s1) (L s2).
Proof. induction s1 as [|c s1 IH]; simpl; f_equal; auto. Qed.

Lemma Str_app (l1 l2 : list ascii) : Str (app l1 l2) = Str l1 ++ Str l2.
Proof. induction l1 as [|c l1 IH]; simpl; f_equal; auto. Qed.

Lemma L_Str (l : list ascii) : L (Str l) = l.
Proof. apply list_ascii_of_string_of_list_ascii. Qed.

Lemma Str_L (s : string) : Str (L s) = s.
Proof. apply string_of_list_ascii_of_string. Qed.

Lemma L_inj (s1 s2 : string) : L s1 = L s2 -> s1 = s2.
Proof. intros H. rewrite <- (Str_L s1), <- (Str_L s2), H. reflexivity. Qed.

Lemma L_length (s : string) : length (L s) = String.length s.
Proof. induction s as [|c s IH]; simpl; auto. Qed.

(** A byte below 0x80 is never part of a multi-byte space encoding. *)
Definition ascii_head (l : list ascii) : Prop :=
  match l with [] => True | b :: _ => byte b < 128 end.

Ltac nat_false :=
  repeat match goal with
  | |- context [ Nat.eqb ?x ?k ] =>
      replace (Nat.eqb x k) with false by (symmetry; apply Nat.eqb_neq; lia)
  | |- context [ Nat.leb ?k ?x ] =>
      replace (Nat.leb k x) with false by (symmetry; apply Nat.leb_gt; lia)
  end.

Lemma two_byte_space_ascii_1 (a b : ascii) : byte a < 128 -> two_byte_space a b = false.
Proof. intros H. unfold two_byte_space. nat_false. reflexivity. Qed.

Lemma two_byte_space_ascii_2 (a b : ascii) : byte b < 128 -> two_byte_space a b = false.
Proof. intros H. unfold two_byte_space. nat_false. now rewrite andb_false_r. Qed.

Lemma three_byte_space_ascii_1 (a b c : ascii) : byte a < 128 -> three_byte_space a b c = false.
Proof. intros H. unfold three_byte_space. nat_false. reflexivity. Qed.

Lemma three_byte_space_ascii_2 (a b c : ascii) : byte b < 128 -> three_byte_space a b c = false.
Proof.
  intros H. unfold three_byte_space. nat_false.
  now rewrite !andb_false_r, !andb_false_l.
Qed.

Lemma three_byte_space_ascii_3 (a b c : ascii) : byte c < 128 -> three_byte_space a b c = false.
Proof.
  intros H. unfold three_byte_space. nat_false. simpl.
  now rewrite !andb_false_r.
Qed.

Ltac space_false :=
  repeat first
    [ rewrite two_byte_space_ascii_1 by assumption
    | rewrite two_byte_space_ascii_2 by assumption
    | rewrite three_byte_space_ascii_1 by assumption
    | rewrite three_byte_space_ascii_2 by assumption
    | rewrite three_byte_space_ascii_3 by assumption ].

(** *** Left trim *)

Lemma ltrim_nonspace (c : ascii) (B : list ascii) :
  byte c < 128 -> is_ascii_space c = false -> ltrim (c :: B) = c :: B.
Proof.
  intros Hc Hs. simpl. rewrite Hs.
  destruct B as [|b [|x B]]; space_false; reflexivity.
Qed.

Lemma ltrim_app_n (n : nat) : forall A B, length A <= n -> ascii_head B ->
  ltrim (app A B) = match ltrim A with [] => ltrim B | _ => app (ltrim A) B end.
Proof.
  induction n as [|n IH]; intros A B Hlen HB.
  { destruct A; simpl in *; [reflexivity|lia]. }
  destruct A as [|a A1]; [reflexivity|]. simpl in Hlen.
  change (app (a :: A1) B) with (a :: app A1 B). cbn [ltrim].
  destruct (is_ascii_space a) eqn:Ha; [apply IH; auto; lia|].
  destruct A1 as [|b A2].
  - destruct B as [|b [|x B]]; simpl in HB |- *; space_false; reflexivity.
  - change (app (b :: A2) B) with (b :: app A2 B).
    destruct (two_byte_space a b) eqn:Hab; rewrite ?Hab;
      [apply IH; auto; simpl in Hlen; lia|].
    destruct A2 as [|x A3].
    + destruct B as [|x B]; simpl in HB |- *; space_false; reflexivity.
    + change (app (x :: A3) B) with (x :: app A3 B).
      destruct (three_byte_space a b x) eqn:Habx; rewrite ?Habx;
        [apply IH; auto; simpl in Hlen; lia|].
      reflexivity.
Qed.

Lemma ltrim_app (A B : list ascii) : ascii_head B ->
  ltrim (app A B) = match ltrim A with [] => ltrim B | _ => app (ltrim A) B end.
Proof. intros HB. apply (ltrim_app_n (length A)); auto. Qed.

Lemma ltrim_idem_n (n : nat) : forall A, length A <= n -> ltrim (ltrim A) = ltrim A.
Proof.
  induction n as [|n IH]; intros A Hlen.
  { destruct A; simpl in *; [reflexivity|lia]. }
  destruct A as [|a A1]; [reflexivity|]. simpl in Hlen. cbn [ltrim].
  destruct (is_ascii_space a) eqn:Ha; [apply IH; lia|].
  destruct A1 as [|b A2]; [simpl; rewrite Ha; reflexivity|].
  destruct (two_byte_space a b) eqn:Hab; [apply IH; simpl in Hlen; lia|].
  destruct A2 as [|x A3]; [simpl; rewrite Ha, Hab; reflexivity|].
  destruct (three_byte_space a b x) eqn:Habx; [apply IH; simpl in Hlen; lia|].
  simpl. rewrite Ha, Hab, Habx. reflexivity.
Qed.

Lemma ltrim_idem (A : list ascii) : ltrim (ltrim A) = ltrim A.
Proof. apply (ltrim_idem_n (length A)); auto. Qed.

Lemma ltrim_suffix_n (n : nat) : forall A, length A <= n -> exists p, A = app p (ltrim A).
Proof.
  induction n as [|n IH]; intros A Hlen.
  { destruct A; simpl in *; [exists []; reflexivity|lia]. }
  destruct A as [|a A1]; [exists []; reflexivity|]. simpl in Hlen. cbn [ltrim].
  destruct (is_ascii_space a).
  { destruct (IH A1) as [p Hp]; [lia|]. exists (a :: p). simpl. congruence. }
  destruct A1 as [|b A2]; [exists []; reflexivity|].
  destruct (two_byte_space a b).
  { destruct (IH A2) as [p Hp]; [simpl in Hlen; lia|].
    exists (a :: b :: p). simpl. congruence. }
  destruct A2 as [|x A3]; [exists []; reflexivity|].
  destruct (three_byte_space a b x); [|exists []; reflexivity].
  destruct (IH A3) as [p Hp]; [simpl in Hlen; lia|].
  exists (a :: b :: x :: p). simpl. congruence.
Qed.

Lemma ltrim_suffix (A : list ascii) : exists p, A = app p (ltrim A).
Proof. apply (ltrim_suffix_n (length A)); auto. Qed.

Lemma ltrim_all_space (w : list ascii) :
  Forall (fun c => is_ascii_space c = true) w -> ltrim w = [].
Proof. induction 1 as [|c w Hc Hw IH]; simpl; [reflexivity|]. now rewrite Hc. Qed.

End StrFacts.
Import StrFacts.

(** ** Right trim *)
Module RTrimFacts.

Lemma rtrim_rev_nonspace (c : ascii) (Y : list ascii) :
  byte c < 128 -> is_ascii_space c = false -> rtrim_rev (c :: Y) = c :: Y.
Proof.
  intros Hc Hs. simpl. rewrite Hs.
  destruct Y as [|b [|a Y]]; space_false; reflexivity.
Qed.

Lemma rtrim_rev_app_n (n : nat) : forall X Z, length X <= n -> ascii_head Z ->
  rtrim_rev (app X Z) = match rtrim_rev X with [] => rtrim_rev Z | _ => app (rtrim_rev X) Z end.
Proof.
  induction n as [|n IH]; intros X Z Hlen HZ.
  { destruct X; simpl in *; [reflexivity|lia]. }
  destruct X as [|c X1]; [reflexivity|]. simpl in Hlen.
  change (app (c :: X1) Z) with (c :: app X1 Z). cbn [rtrim_rev].
  destruct (is_ascii_space c) eqn:Hc; [apply IH; auto; lia|].
  destruct X1 as [|b X2].
  - destruct Z as [|b [|a Z]]; simpl in HZ |- *; space_false; reflexivity.
  - change (app (b :: X2) Z) with (b :: app X2 Z).
    destruct (two_byte_space b c) eqn:Hbc; rewrite ?Hbc;
      [apply IH; auto; simpl in Hlen; lia|].
    destruct X2 as [|a X3].
    + destruct Z as [|a Z]; simpl in HZ |- *; space_false; reflexivity.
    + change (app (a :: X3) Z) with (a :: app X3 Z).
      destruct (three_byte_space a b c) eqn:Habc; rewrite ?Habc;
        [apply IH; auto; simpl in Hlen; lia|].
      reflexivity.
Qed.

Lemma rtrim_rev_app (X Z : list ascii) : ascii_head Z ->
  rtrim_rev (app X Z) = match rtrim_rev X with [] => rtrim_rev Z | _ => app (rtrim_rev X) Z end.
Proof. intros HZ. apply (rtrim_rev_app_n (length X)); auto. Qed.

Lemma rtrim_rev_prefix_n (n : nat) : forall X, length X <= n -> exists p, X = app p (rtrim_rev X).
Proof.
  induction n as [|n IH]; intros X Hlen.
  { destruct X; simpl in *; [exists []; reflexivity|lia]. }
  destruct X as [|c X1]; [exists []; reflexivity|]. simpl in Hlen. cbn [rtrim_rev].
  destruct (is_ascii_space c).
  { destruct (IH X1) as [p Hp]; [lia|]. exists (c :: p). simpl. congruence. }
  destruct X1 as [|b X2]; [exists []; reflexivity|].
  destruct (two_byte_space b c).
  { destruct (IH X2) as [p Hp]; [simpl in Hlen; lia|].
    exists (c :: b :: p). simpl. congruence. }
  destruct X2 as [|a X3]; [exists []; reflexivity|].
  destruct (three_byte_space a b c); [|exists []; reflexivity].
  destruct (IH X3) as [p Hp]; [simpl in Hlen; lia|].
  exists (c :: b :: a :: p). simpl. congruence.
Qed.

(** [rtrim A] is a prefix of [A]. *)
Lemma rtrim_prefix (A : list ascii) : exists q, A = app (rtrim A) q.
Proof.
  destruct (rtrim_rev_prefix_n (length (rev A)) (rev A)) as [p Hp]; auto.
  exists (rev p). unfold rtrim. rewrite <- rev_app_distr, <- Hp, rev_involutive.
  reflexivity.
Qed.

Lemma rtrim_app_nonspace (A B : list ascii) (c : ascii) :
  byte c < 128 -> is_ascii_space c = false ->
  rtrim (app A (c :: B)) = app A (c :: rtrim B).
Proof.
  intros Hc Hs. unfold rtrim.
  rewrite rev_app_distr. simpl. rewrite <- app_assoc. simpl.
  rewrite rtrim_rev_app by (simpl; exact Hc).
  destruct (rtrim_rev (rev B)) as [|x X] eqn:HB.
  - rewrite rtrim_rev_nonspace by assumption. simpl. now rewrite rev_involutive.
  - rewrite rev_app_distr. simpl. rewrite rev_involutive, <- app_assoc. reflexivity.
Qed.

Lemma rtrim_rev_spaces (Y X : list ascii) :
  Forall (fun c => is_ascii_space c = true) Y -> rtrim_rev (app Y X) = rtrim_rev X.
Proof. induction 1 as [|c Y Hc HY IH]; simpl; [reflexivity|]. now rewrite Hc. Qed.

Lemma rtrim_app_spaces (A w : list ascii) :
  Forall (fun c => is_ascii_space c = true) w -> rtrim (app A w) = rtrim A.
Proof.
  intros Hw. unfold rtrim. rewrite rev_app_distr, rtrim_rev_spaces; auto.
  apply Forall_rev. exact Hw.
Qed.

Lemma rtrim_nil : rtrim [] = [].
Proof. reflexivity. Qed.

Lemma rtrim_all_space (w : list ascii) :
  Forall (fun c => is_ascii_space c = true) w -> rtrim w = [].
Proof. intros Hw. rewrite <- (app_nil_l w), rtrim_app_spaces; auto. Qed.

Lemma is_ascii_space_byte (c : ascii) : is_ascii_space c = true -> byte c < 128.
Proof.
  unfold is_ascii_space. destruct (byte c) as [|n] eqn:E; [discriminate|].
  intros H. do 32 (destruct n as [|n]; try lia; try discriminate).
Qed.

(** [TrimSpace] ignores one trailing carriage return ([dropCR]). *)
Lemma TrimSpace_dropCR (s : string) : TrimSpace (dropCR s) = TrimSpace s.
Proof.
  unfold dropCR. destruct (rev (L s)) as [|c rest] eqn:Hr; [reflexivity|].
  destruct (Ascii.eqb c cr) eqn:Hc; [|reflexivity].
  apply Ascii.eqb_eq in Hc. subst c.
  assert (Hs : L s = app (rev rest) [cr]).
  { rewrite <- (rev_involutive (L s)), Hr. reflexivity. }
  unfold TrimSpace. rewrite Hs, L_Str, ltrim_app by (simpl; apply Nat.ltb_lt; reflexivity).
  destruct (ltrim (rev rest)) as [|x X] eqn:Hl; [reflexivity|].
  rewrite rtrim_app_spaces; [reflexivity|]. repeat constructor.
Qed.

End RTrimFacts.
Import RTrimFacts.

(** ** [SplitN], slices and quote escaping *)
Module OpsFacts.

Lemma append_assoc (a b c : string) : (a ++ b) ++ c = a ++ (b ++ c).
Proof. induction a as [|x a IH]; simpl; f_equal; auto. Qed.

Lemma append_nil_r (a : string) : a ++ "" = a.
Proof. induction a as [|x a IH]; simpl; f_equal; auto. Qed.

Lemma length_append (a b : string) : String.length (a ++ b) = String.length a + String.length b.
Proof. induction a as [|x a IH]; simpl; auto. Qed.

Lemma split_first_here (c : ascii) (t : string) : split_first c (String c t) = Some ("", t).
Proof. simpl. now rewrite Ascii.eqb_refl. Qed.

Lemma split_first_app (c : ascii) (a t : string) : ~ In c (L a) ->
  split_first c (a ++ t) =
  match split_first c t with Some (x, y) => Some (a ++ x, y) | None => None end.
Proof.
  induction a as [|x a IH]; intros Hn; simpl.
  - destruct (split_first c t) as [[? ?]|]; reflexivity.
  - simpl in Hn. destruct (Ascii.eqb x c) eqn:E.
    { apply Ascii.eqb_eq in E. subst. tauto. }
    rewrite IH by tauto. destruct (split_first c t) as [[? ?]|]; reflexivity.
Qed.

Lemma split_first_some (c : ascii) (s a b : string) :
  split_first c s = Some (a, b) -> s = a ++ String c b /\ ~ In c (L a).
Proof.
  revert a b; induction s as [|x s IH]; intros a b H; simpl in H; [discriminate|].
  destruct (Ascii.eqb x c) eqn:E.
  - injection H as <- <-. apply Ascii.eqb_eq in E. subst. simpl. auto.
  - destruct (split_first c s) as [[a' b']|] eqn:Hs; [|discriminate].
    injection H as <- <-. destruct (IH a' b' eq_refl) as [-> Hn].
    split; [reflexivity|]. simpl. intros [Hx|Hx]; [|tauto].
    subst. now rewrite Ascii.eqb_refl in E.
Qed.

Lemma split_first_none (c : ascii) (s : string) :
  split_first c s = None -> ~ In c (L s).
Proof.
  induction s as [|x s IH]; simpl; [auto|].
  destruct (Ascii.eqb x c) eqn:E; [discriminate|].
  destruct (split_first c s) as [[? ?]|]; [discriminate|].
  intros _ [Hx|Hx]; [subst; now rewrite Ascii.eqb_refl in E|tauto].
Qed.

Lemma split_first_none_intro (c : ascii) (s : string) :
  ~ In c (L s) -> split_first c s = None.
Proof.
  intros Hn. rewrite <- (append_nil_r s), split_first_app by exact Hn. reflexivity.
Qed.

(** Slices *)
Lemma substring_0_app (a b : string) : substring 0 (String.length a) (a ++ b) = a.
Proof. induction a as [|x a IH]; simpl; [now destruct b|]. now rewrite IH. Qed.

Lemma substring_0_full (s : string) : substring 0 (String.length s) s = s.
Proof. rewrite <- (append_nil_r s) at 2. apply substring_0_app. Qed.

Lemma substring_shift (c : ascii) (s : string) (n m : nat) :
  substring (S n) m (String c s) = substring n m s.
Proof. reflexivity. Qed.

Lemma substring_len0 (n : nat) (s : string) : substring n 0 s = "".
Proof. revert s; induction n as [|n IH]; intros [|c s]; simpl; auto. Qed.

(** Escaping *)
Lemma escapeQuotes_app (a b : string) : escapeQuotes (a ++ b) = escapeQuotes a ++ escapeQuotes b.
Proof.
  induction a as [|x a IH]; simpl; [reflexivity|].
  destruct (Ascii.eqb x dq); simpl; now rewrite IH.
Qed.

Lemma escapeQuotes_head (w : string) :
  match escapeQuotes w with String d _ => d <> dq | EmptyString => w = "" end.
Proof.
  destruct w as [|c w]; simpl; [reflexivity|].
  destruct (Ascii.eqb c dq) eqn:E; [discriminate|].
  intros ->. now rewrite Ascii.eqb_refl in E.
Qed.

Lemma unescape_escape (w : string) : unescapeQuotes (escapeQuotes w) = w.
Proof.
  induction w as [|c w IH]; [reflexivity|]. simpl.
  destruct (Ascii.eqb c dq) eqn:Edq.
  - apply Ascii.eqb_eq in Edq. subst. simpl. now rewrite IH.
  - destruct (Ascii.eqb c bslash) eqn:Eb.
    + pose proof (escapeQuotes_head w) as Hh. simpl. rewrite Eb.
      destruct (escapeQuotes w) as [|d s''] eqn:Ew.
      * subst. reflexivity.
      * apply Ascii.eqb_eq in Eb. subst c.
        destruct (Ascii.eqb d dq) eqn:Ed; [apply Ascii.eqb_eq in Ed; contradiction|].
        now rewrite IH.
    + simpl. rewrite Eb. now rewrite IH.
Qed.

(** The last byte of [w], or [prev] when [w] is empty. *)
Fixpoint lastc (prev : option ascii) (w : string) : option ascii :=
  match w with
  | EmptyString => prev
  | String c w' => lastc (Some c) w'
  end.

Lemma scan_quote_escaped (w : string) : forall prev i,
  lastc prev w <> Some bslash ->
  scan_quote prev (escapeQuotes w ++ str1 dq) i = Some (i + String.length (escapeQuotes w)).
Proof.
  induction w as [|c w IH]; intros prev i Hl; simpl in *.
  - destruct prev as [p|]; simpl.
    + destruct (Ascii.eqb p bslash) eqn:E; [apply Ascii.eqb_eq in E; congruence|].
      rewrite Nat.add_0_r. reflexivity.
    + rewrite Nat.add_0_r. reflexivity.
  - destruct (Ascii.eqb c dq) eqn:Edq; simpl.
    + apply Ascii.eqb_eq in Edq. subst c.
      rewrite IH by exact Hl. f_equal. lia.
    + rewrite Edq. simpl. rewrite IH by exact Hl. f_equal. lia.
Qed.

Lemma length_quoted (w : string) : String.length (quoted w) = 2 + String.length (escapeQuotes w).
Proof. unfold quoted. simpl. rewrite length_append. simpl. lia. Qed.

(** A quoted value reads back as itself unless it ends with a backslash. *)
Lemma parse_value_quoted (w : string) :
  lastc None w <> Some bslash -> parse_value (quoted w) = (w, "", "").
Proof.
  intros Hl. unfold parse_value.
  assert (Hp : has_prefix dq (quoted w) = true) by (simpl; try apply Ascii.eqb_refl; reflexivity).
  rewrite Hp.
  assert (Hf : findClosingQuote (quoted w) 1 = Some (1 + String.length (escapeQuotes w))).
  { unfold findClosingQuote, slice_from. rewrite length_quoted.
    replace (2 + String.length (escapeQuotes w) - 1)
      with (String.length (escapeQuotes w ++ str1 dq))
      by (rewrite length_append; simpl; lia).
    unfold quoted.
    change (str1 dq ++ escapeQuotes w ++ str1 dq) with (String dq (escapeQuotes w ++ str1 dq)).
    rewrite substring_shift, substring_0_full.
    apply scan_quote_escaped.
    destruct w as [|c w']; simpl in *; [discriminate|exact Hl]. }
  rewrite Hf. unfold slice, slice_from. rewrite length_quoted.
  replace (2 + String.length (escapeQuotes w) - S (1 + String.length (escapeQuotes w)))
    with 0 by lia.
  rewrite substring_len0. simpl String.length. simpl Nat.ltb.
  replace (1 + String.length (escapeQuotes w) - 1) with (String.length (escapeQuotes w)) by lia.
  unfold quoted.
  change (str1 dq ++ escapeQuotes w ++ str1 dq) with (String dq (escapeQuotes w ++ str1 dq)).
  rewrite substring_shift, substring_0_app, unescape_escape. reflexivity.
Qed.

End OpsFacts.
Import OpsFacts.

(** ** Line parsing *)
Module ParseFacts.

Lemma TrimSpace_L (s : string) : L (TrimSpace s) = rtrim (ltrim (L s)).
Proof. unfold TrimSpace. apply L_Str. Qed.

Lemma TrimSpace_Str (l : list ascii) : TrimSpace (Str l) = Str (rtrim (ltrim l)).
Proof. unfold TrimSpace. now rewrite L_Str. Qed.

Lemma byte_eqc : byte eqc < 128.
Proof. apply Nat.ltb_lt. reflexivity. Qed.
Lemma byte_sp : byte sp < 128.
Proof. apply Nat.ltb_lt. reflexivity. Qed.
Lemma byte_dq : byte dq < 128.
Proof. apply Nat.ltb_lt. reflexivity. Qed.

Lemma parse_line_original (l : string) : Original (parse_line l) = l.
Proof.
  unfold parse_line.
  destruct (String.eqb _ _); [reflexivity|]. destruct (has_prefix _ _); [reflexivity|].
  destruct (split_first _ _) as [[p0 p1]|]; [|reflexivity].
  destruct (parse_value _) as [[v c] g]. reflexivity.
Qed.

(** [parse_line] looks at the line only through [TrimSpace]. *)
Lemma parse_line_trim (s1 s2 : string) : TrimSpace s1 = TrimSpace s2 ->
  parse_line s1 =
  let e := parse_line s2 in
  mkEntry s1 (Key e) (Value e) (InlineComment e) (InlineCommentSpace e)
          (IsComment e) (IsBlank e).
Proof.
  intros H. unfold parse_line. rewrite H.
  destruct (String.eqb _ _); [reflexivity|]. destruct (has_prefix _ _); [reflexivity|].
  destruct (split_first _ _) as [[p0 p1]|]; [|reflexivity].
  destruct (parse_value _) as [[v c] g]. reflexivity.
Qed.

Lemma parse_line_dropCR_key (s : string) : Key (parse_line (dropCR s)) = Key (parse_line s).
Proof. rewrite (parse_line_trim _ s) by apply TrimSpace_dropCR. reflexivity. Qed.

Lemma In_ltrim (c : ascii) (K : list ascii) : In c (ltrim K) -> In c K.
Proof.
  destruct (ltrim_suffix K) as [p Hp]. intros H. rewrite Hp. apply in_or_app. auto.
Qed.

(** An assignment line whose key part is not all spaces. *)
Lemma parse_line_assign (l : string) (K R : list ascii) (a : ascii) (K' : list ascii) :
  L l = app K (eqc :: R) -> ~ In eqc K -> ltrim K = a :: K' ->
  parse_line l =
  if Ascii.eqb a hash then comment_entry l
  else
    let '(value, ic, ics) := parse_value (Str (rtrim (ltrim (rtrim R)))) in
    mkEntry l (Str (rtrim (ltrim K))) value ic ics false false.
Proof.
  intros Hl Hn HK.
  assert (HT : TrimSpace l = Str (ltrim K) ++ String eqc (Str (rtrim R))).
  { apply L_inj. rewrite TrimSpace_L, Hl, ltrim_app by exact byte_eqc. rewrite HK.
    rewrite rtrim_app_nonspace by (exact byte_eqc || reflexivity).
    rewrite L_app, L_Str. simpl. now rewrite L_Str. }
  unfold parse_line. rewrite HT, HK.
  set (Y := String eqc (Str (rtrim R))).
  replace (String.eqb (Str (a :: K') ++ Y) "") with false by reflexivity.
  replace (has_prefix hash (Str (a :: K') ++ Y)) with (Ascii.eqb a hash) by reflexivity.
  destruct (Ascii.eqb a hash); [reflexivity|].
  unfold Y. rewrite <- HK, split_first_app, split_first_here, append_nil_r.
  2:{ rewrite L_Str. intros Hin. apply Hn, In_ltrim, Hin. }
  rewrite !TrimSpace_Str, ltrim_idem. reflexivity.
Qed.

(** An assignment line whose key part is all spaces has the empty key. *)
Lemma parse_line_assign_empty (l : string) (K R : list ascii) :
  L l = app K (eqc :: R) -> ltrim K = [] ->
  parse_line l =
  let '(value, ic, ics) := parse_value (Str (rtrim (ltrim (rtrim R)))) in
  mkEntry l "" value ic ics false false.
Proof.
  intros Hl HK.
  assert (HT : TrimSpace l = String eqc (Str (rtrim R))).
  { apply L_inj. rewrite TrimSpace_L, Hl, ltrim_app by exact byte_eqc. rewrite HK.
    rewrite ltrim_nonspace by (exact byte_eqc || reflexivity).
    pose proof (rtrim_app_nonspace [] R eqc byte_eqc eq_refl) as E. simpl in E.
    rewrite E. simpl. now rewrite L_Str. }
  unfold parse_line. rewrite HT. cbn [String.eqb].
  replace (has_prefix hash (String eqc (Str (rtrim R)))) with false by reflexivity.
  rewrite split_first_here, TrimSpace_Str. reflexivity.
Qed.

Lemma parse_line_assign_nokey (l : string) (K R : list ascii) :
  L l = app K (eqc :: R) -> ltrim K = [] -> Key (parse_line l) = "".
Proof.
  intros Hl HK. rewrite (parse_line_assign_empty l K R Hl HK).
  destruct (parse_value _) as [[v c] g]. reflexivity.
Qed.

Lemma TrimSpace_infix (s : string) : exists p q, L s = app p (app (L (TrimSpace s)) q).
Proof.
  destruct (ltrim_suffix (L s)) as [p Hp]. destruct (rtrim_prefix (ltrim (L s))) as [q Hq].
  exists p, q. rewrite TrimSpace_L, <- Hq. exact Hp.
Qed.

(** A line without '=' is a blank line or a comment. *)
Lemma parse_line_noeq (l : string) : ~ In eqc (L l) ->
  parse_line l = blank_entry l \/ parse_line l = comment_entry l.
Proof.
  intros Hn. unfold parse_line.
  destruct (String.eqb _ _); [auto|]. destruct (has_prefix _ _); [auto|].
  rewrite split_first_none_intro; [auto|].
  destruct (TrimSpace_infix l) as [p [q Hpq]]. intros Hin. apply Hn. rewrite Hpq.
  apply in_or_app. right. apply in_or_app. auto.
Qed.

Lemma parse_line_nonentry_key (l : string) :
  IsBlank (parse_line l) = true \/ IsComment (parse_line l) = true -> Key (parse_line l) = "".
Proof.
  unfold parse_line.
  destruct (String.eqb _ _); [auto|]. destruct (has_prefix _ _); [auto|].
  destruct (split_first _ _) as [[p0 p1]|]; [|auto].
  destruct (parse_value _) as [[v c] g]. simpl. intros [H|H]; discriminate.
Qed.

End ParseFacts.
Import ParseFacts.

(** ** Keys survive a save and a reload *)
Module KeyFacts.

Lemma is_sp_tab_space (c : ascii) : is_sp_tab c = true -> is_ascii_space c = true.
Proof.
  unfold is_sp_tab. intros H. apply orb_true_iff in H as [H|H];
    apply Ascii.eqb_eq in H; subst; reflexivity.
Qed.

Lemma drop_sp_tab_spec (l : list ascii) :
  exists w, l = app w (drop_sp_tab l) /\ Forall (fun c => is_ascii_space c = true) w.
Proof.
  induction l as [|c l IH]; simpl.
  - exists []. auto.
  - destruct (is_sp_tab c) eqn:E.
    + destruct IH as [w [Hw Hf]]. exists (c :: w). simpl. split; [congruence|].
      constructor; auto. now apply is_sp_tab_space.
    + exists []. auto.
Qed.

Lemma TrimRightSpTab_spec (s : string) :
  exists w, L s = app (L (TrimRightSpTab s)) w /\ Forall (fun c => is_ascii_space c = true) w.
Proof.
  destruct (drop_sp_tab_spec (rev (L s))) as [w [Hw Hf]].
  exists (rev w). unfold TrimRightSpTab. rewrite L_Str. split.
  - rewrite <- rev_app_distr, <- Hw, rev_involutive. reflexivity.
  - now apply Forall_rev.
Qed.

Lemma spaces_ascii_head (w : list ascii) :
  Forall (fun c => is_ascii_space c = true) w -> ascii_head w.
Proof. destruct 1; simpl; [exact I|]. now apply is_ascii_space_byte. Qed.

Lemma L_eq_line (q Z : string) : L (q ++ " = " ++ Z) = app (app (L q) [sp]) (eqc :: sp :: L Z).
Proof. rewrite L_app. rewrite <- app_assoc. reflexivity. Qed.

(** The key of a re-formatted assignment line is the key of the line. *)
Lemma key_reformatted (kp Z : string) (a : ascii) (K' : list ascii) :
  ~ In eqc (L kp) -> ltrim (L kp) = a :: K' -> Ascii.eqb a hash = false ->
  Key (parse_line (TrimRightSpTab kp ++ " = " ++ Z)) = Str (rtrim (ltrim (L kp))).
Proof.
  intros Hn HK Ha.
  destruct (TrimRightSpTab_spec kp) as [w [Hw Hf]].
  set (q := TrimRightSpTab kp) in *.
  assert (Hq : exists Q, ltrim (L q) = a :: Q /\ ltrim (L kp) = app (ltrim (L q)) w).
  { rewrite Hw, ltrim_app in HK by (now apply spaces_ascii_head).
    rewrite Hw, ltrim_app by (now apply spaces_ascii_head).
    destruct (ltrim (L q)) as [|b Q] eqn:Hlq.
    - rewrite ltrim_all_space in HK by exact Hf. discriminate.
    - simpl in HK. injection HK as -> _. eauto. }
  destruct Hq as [Q [HQ HKq]].
  rewrite (parse_line_assign _ (app (L q) [sp]) (sp :: L Z) a (app Q [sp]) (L_eq_line q Z)).
  - rewrite Ha. destruct (parse_value _) as [[v c] g]. simpl.
    rewrite HKq, ltrim_app, HQ by exact byte_sp. rewrite <- HQ.
    rewrite !rtrim_app_spaces; [reflexivity|exact Hf|repeat constructor].
  - intros Hin. apply in_app_or in Hin as [Hin|[Hin|[]]].
    + apply Hn. rewrite Hw. apply in_or_app. auto.
    + discriminate.
  - rewrite ltrim_app, HQ by exact byte_sp. reflexivity.
Qed.

(** Saving an entry of a loaded file and parsing the saved line again
    gives back its key. *)
Lemma save_parse_key (l : string) :
  Key (parse_line (save_line (parse_line l))) = Key (parse_line l).
Proof.
  unfold save_line. set (e := parse_line l).
  destruct (IsBlank e) eqn:Hb.
  { transitivity ""; [reflexivity|]. symmetry. apply parse_line_nonentry_key. auto. }
  destruct (IsComment e) eqn:Hc.
  { unfold e. now rewrite parse_line_original. }
  destruct (negb (String.eqb (Key e) "")) eqn:Hk.
  2:{ unfold e. now rewrite parse_line_original. }
  assert (Ho : Original e = l) by apply parse_line_original. rewrite Ho.
  destruct (split_first eqc l) as [[kp r]|] eqn:Hs.
  2:{ apply split_first_none, parse_line_noeq in Hs.
      fold e in Hs. destruct Hs as [Hs|Hs]; rewrite Hs in Hb, Hc; discriminate. }
  apply split_first_some in Hs as [Hl Hn].
  assert (HL : L l = app (L kp) (eqc :: L r)) by (rewrite Hl, L_app; reflexivity).
  destruct (ltrim (L kp)) as [|a K'] eqn:Hlk.
  { unfold e in Hk. rewrite (parse_line_assign_nokey l (L kp) (L r) HL Hlk) in Hk.
    discriminate. }
  pose proof (parse_line_assign l (L kp) (L r) a K' HL Hn Hlk) as HP. fold e in HP.
  destruct (Ascii.eqb a hash) eqn:Ha.
  { rewrite HP in Hc. discriminate. }
  assert (HKe : Key e = Str (rtrim (ltrim (L kp)))).
  { rewrite HP. destruct (parse_value _) as [[v c] g]. reflexivity. }
  rewrite HKe.
  destruct (negb (String.eqb (InlineComment e) "")).
  - rewrite !append_assoc. rewrite <- (append_assoc " = ").
    apply (key_reformatted kp _ a K'); auto.
  - apply (key_reformatted kp _ a K'); auto.
Qed.

End KeyFacts.
Import KeyFacts.

(** ** Bytes of the fields of a parsed line *)
Module CharFacts.
Section WithP.
Variable P : ascii -> Prop.

Lemma Forall_infix (s t : string) (p q : list ascii) :
  L s = app p (app (L t) q) -> Forall P (L s) -> Forall P (L t).
Proof.
  intros H Hs. rewrite H in Hs. apply Forall_app in Hs as [_ Hs].
  apply Forall_app in Hs as [Hs _]. exact Hs.
Qed.

Lemma Forall_substring (n m : nat) (s : string) :
  Forall P (L s) -> Forall P (L (substring n m s)).
Proof.
  revert n m; induction s as [|c s IH]; intros [|n] [|m] H; simpl in *; auto.
  - inversion H; subst. constructor; auto.
  - inversion H; auto.
  - inversion H; auto.
Qed.

Lemma Forall_TrimSpace (s : string) : Forall P (L s) -> Forall P (L (TrimSpace s)).
Proof. destruct (TrimSpace_infix s) as [p [q H]]. now apply (Forall_infix s _ p q). Qed.

Lemma Forall_TrimRightSpTab (s : string) :
  Forall P (L s) -> Forall P (L (TrimRightSpTab s)).
Proof.
  destruct (TrimRightSpTab_spec s) as [w [Hw _]]. intros H.
  apply (Forall_infix s _ [] w); auto.
Qed.

Lemma Forall_split_first (c : ascii) (s a b : string) :
  split_first c s = Some (a, b) -> Forall P (L s) -> Forall P (L a) /\ Forall P (L b).
Proof.
  intros Hs H. apply split_first_some in Hs as [-> _].
  rewrite L_app in H. apply Forall_app in H as [Ha Hb]. inversion Hb; auto.
Qed.

Lemma Forall_unescape_n (n : nat) : P dq -> forall s, String.length s <= n ->
  Forall P (L s) -> Forall P (L (unescapeQuotes s)).
Proof.
  intros Hdq. induction n as [|n IH]; intros s Hlen H.
  { destruct s; simpl in *; [constructor|lia]. }
  destruct s as [|c s']; [constructor|]. simpl in Hlen, H |- *. inversion H; subst.
  destruct (Ascii.eqb c bslash).
  - destruct s' as [|d s'']; [simpl; auto|]. simpl in Hlen.
    inversion H3; subst. destruct (Ascii.eqb d dq).
    + cbn [list_ascii_of_string]. constructor; auto. apply IH; auto. lia.
    + cbn [list_ascii_of_string]. constructor; auto. apply IH; simpl; auto. lia.
  - cbn [list_ascii_of_string]. constructor; auto. apply IH; auto. lia.
Qed.

Lemma Forall_unescape (s : string) : P dq -> Forall P (L s) -> Forall P (L (unescapeQuotes s)).
Proof. intros Hdq. apply (Forall_unescape_n (String.length s)); auto. Qed.

Lemma Forall_escape (s : string) : P bslash -> Forall P (L s) -> Forall P (L (escapeQuotes s)).
Proof.
  intros Hb. induction s as [|c s IH]; intros H; simpl in *; [constructor|].
  inversion H; subst. destruct (Ascii.eqb c dq) eqn:E; simpl.
  - apply Ascii.eqb_eq in E. subst. repeat constructor; auto.
  - constructor; auto.
Qed.

Ltac fa :=
  repeat first
    [ exact (Forall_nil _) | assumption | apply Forall_TrimSpace
    | apply Forall_unescape; [assumption|] | apply Forall_substring ].

Lemma Forall_parse_value (vac v c g : string) : P dq -> Forall P (L vac) ->
  parse_value vac = (v, c, g) -> Forall P (L v) /\ Forall P (L c) /\ Forall P (L g).
Proof.
  intros Hdq H. unfold parse_value, slice, slice_from.
  repeat match goal with
  | |- context [ if ?b then _ else _ ] => destruct b
  | |- context [ match ?x with Some _ => _ | None => _ end ] => destruct x
  end;
  intros E; injection E as <- <- <-; repeat split; fa.
Qed.

Lemma Forall_parse_line (l : string) : P dq -> Forall P (L l) ->
  Forall P (L (Key (parse_line l))) /\ Forall P (L (Value (parse_line l))) /\
  Forall P (L (InlineComment (parse_line l))) /\
  Forall P (L (InlineCommentSpace (parse_line l))).
Proof.
  intros Hdq H. unfold parse_line.
  destruct (String.eqb _ _); [repeat split; constructor|].
  destruct (has_prefix _ _); [repeat split; constructor|].
  destruct (split_first eqc (TrimSpace l)) as [[p0 p1]|] eqn:Hs;
    [|repeat split; constructor].
  apply Forall_split_first in Hs as [H0 H1]; [|apply Forall_TrimSpace; auto].
  destruct (parse_value (TrimSpace p1)) as [[v c] g] eqn:Hv.
  apply Forall_parse_value in Hv as [Hv [Hc Hg]]; [|auto|apply Forall_TrimSpace; auto].
  simpl. repeat split; auto. apply Forall_TrimSpace; auto.
Qed.

Lemma Forall_quoted (w : string) : P dq -> P bslash -> Forall P (L w) ->
  Forall P (L (quoted w)).
Proof.
  intros Hdq Hb Hw. unfold quoted. rewrite !L_app. simpl.
  constructor; auto. apply Forall_app. split; [apply Forall_escape; auto|].
  repeat constructor; auto.
Qed.

Lemma Forall_save_line (l : string) : P dq -> P bslash -> P sp -> P eqc ->
  Forall P (L l) -> Forall P (L (save_line (parse_line l))).
Proof.
  intros Hdq Hb Hsp Heq H.
  destruct (Forall_parse_line l Hdq H) as [Hk [Hv [Hc Hg]]].
  unfold save_line. rewrite parse_line_original.
  destruct (IsBlank _); [constructor|]. destruct (IsComment _); [auto|].
  destruct (negb _); [|auto].
  assert (Hl : Forall P (L (match split_first eqc l with
      | Some (part0, _) => TrimRightSpTab part0 ++ " = " ++ quoted (Value (parse_line l))
      | None => Key (parse_line l) ++ " = " ++ quoted (Value (parse_line l)) end))).
  { destruct (split_first eqc l) as [[p0 p1]|] eqn:Hs.
    - apply Forall_split_first in Hs as [H0 _]; auto.
      rewrite !L_app. apply Forall_app. split; [apply Forall_TrimRightSpTab; auto|].
      apply Forall_app. split; [repeat constructor; auto|apply Forall_quoted; auto].
    - rewrite !L_app. apply Forall_app. split; auto.
      apply Forall_app. split; [repeat constructor; auto|apply Forall_quoted; auto]. }
  destruct (negb _); auto. rewrite !L_app. apply Forall_app. split; auto.
  apply Forall_app. split; auto.
Qed.

Lemma Forall_dropCR (s : string) : Forall P (L s) -> Forall P (L (dropCR s)).
Proof.
  unfold dropCR. destruct (rev (L s)) as [|c rest] eqn:Hr; auto.
  destruct (Ascii.eqb c cr); auto. intros H. rewrite L_Str.
  assert (Hs : L s = app (rev rest) [c]).
  { rewrite <- (rev_involutive (L s)), Hr. reflexivity. }
  rewrite Hs in H. apply Forall_app in H. tauto.
Qed.

End WithP.
End CharFacts.
Import CharFacts.

(** ** Scanning saved bytes *)
Module ScanFacts.

Definition nonl_line (s : string) : Prop := ~ In nl (L s).

Lemma Forall_neq_nonl (s : string) : Forall (fun c => c <> nl) (L s) -> nonl_line s.
Proof. intros H Hin. rewrite Forall_forall in H. exact (H nl Hin eq_refl). Qed.

Lemma nonl_Forall_neq (s : string) : nonl_line s -> Forall (fun c => c <> nl) (L s).
Proof. intros H. apply Forall_forall. intros c Hc ->. exact (H Hc). Qed.

Lemma split_lines_line (l rest : string) : nonl_line l ->
  split_lines (l ++ String nl rest) = l :: split_lines rest.
Proof.
  induction l as [|c l IH]; intros Hn; simpl.
  - reflexivity.
  - unfold nonl_line in Hn. simpl in Hn.
    destruct (Ascii.eqb c nl) eqn:E; [apply Ascii.eqb_eq in E; tauto|].
    rewrite IH by (intros H; tauto). reflexivity.
Qed.

Lemma split_lines_unlines (ls : list string) : Forall nonl_line ls ->
  split_lines (unlines ls) = ls.
Proof.
  induction 1 as [|l ls Hl Hls IH]; [reflexivity|].
  change (unlines (l :: ls)) with (l ++ String nl (unlines ls)).
  rewrite split_lines_line by exact Hl.
  now rewrite IH.
Qed.

Lemma split_lines_nonl (s : string) : Forall nonl_line (split_lines s).
Proof.
  induction s as [|c s IH]; simpl; [constructor|].
  destruct (Ascii.eqb c nl) eqn:E.
  - constructor; auto. intros [].
  - destruct (split_lines s) as [|l ls].
    + constructor; [|constructor]. intros [H|[]]. subst. now rewrite Ascii.eqb_refl in E.
    + inversion IH; subst. constructor; auto.
      intros [H|H]; [subst; now rewrite Ascii.eqb_refl in E|unfold nonl_line in *; tauto].
Qed.

Lemma existsb_false {A} (f : A -> bool) (l : list A) :
  Forall (fun x => f x = false) l -> existsb f l = false.
Proof. induction 1; simpl; auto. now rewrite H, IHForall. Qed.

Lemma scan_lines_unlines (ls : list string) :
  Forall nonl_line ls -> Forall (fun l => String.length l < MaxScanTokenSize) ls ->
  scan_lines (unlines ls) = Ok (map dropCR ls).
Proof.
  intros Hn Hlen. unfold scan_lines. rewrite split_lines_unlines by exact Hn.
  rewrite existsb_false; [reflexivity|].
  eapply Forall_impl; [|exact Hlen]. intros l Hl. apply Nat.leb_gt. exact Hl.
Qed.

(** The lines a loaded document was parsed from. *)
Lemma Load_lines (fn : string) (f : FileState) (d : Dictionary) :
  LoadDictionary fn f = Ok d ->
  Filename d = fn /\ exists ls, Entries d = map parse_line ls /\ Forall nonl_line ls.
Proof.
  destruct f as [| |bytes]; simpl; intros H.
  - injection H as <-. split; [reflexivity|]. exists []. auto.
  - discriminate.
  - unfold scan_lines in H.
    destruct (existsb _ _); [discriminate|]. injection H as <-.
    split; [reflexivity|]. exists (map dropCR (split_lines bytes)). split; [reflexivity|].
    apply Forall_map. eapply Forall_impl; [|apply split_lines_nonl].
    intros l Hl. apply Forall_neq_nonl, Forall_dropCR, nonl_Forall_neq, Hl.
Qed.

Lemma nonl_save_line (l : string) : nonl_line l -> nonl_line (save_line (parse_line l)).
Proof.
  intros H. apply Forall_neq_nonl, Forall_save_line; try discriminate.
  apply nonl_Forall_neq, H.
Qed.

End ScanFacts.
Import ScanFacts.

(** ** Lines written by [Add] *)
Module NewLineFacts.

Lemma rtrim_length (A : list ascii) : length (rtrim A) <= length A.
Proof. destruct (rtrim_prefix A) as [q Hq]. rewrite Hq at 2. rewrite length_app. lia. Qed.

Lemma ltrim_length (A : list ascii) : length (ltrim A) <= length A.
Proof. destruct (ltrim_suffix A) as [p Hp]. rewrite Hp at 2. rewrite length_app. lia. Qed.

Lemma TrimSpace_fixed (k : string) : TrimSpace k = k ->
  ltrim (L k) = L k /\ rtrim (L k) = L k.
Proof.
  intros H. assert (HL : rtrim (ltrim (L k)) = L k) by (rewrite <- TrimSpace_L; congruence).
  destruct (ltrim_suffix (L k)) as [p Hp].
  assert (Hlen : length (L k) <= length (ltrim (L k))).
  { rewrite <- HL at 1. apply rtrim_length. }
  assert (p = []).
  { destruct p; [reflexivity|]. rewrite Hp in Hlen at 1. simpl in Hlen.
    rewrite length_app in Hlen. lia. }
  subst p. simpl in Hp. rewrite <- Hp. split; [reflexivity|]. rewrite Hp at 1. exact HL.
Qed.

Lemma TrimRightSpTab_fixed (k : string) : rtrim (L k) = L k -> TrimRightSpTab k = k.
Proof.
  intros H. unfold TrimRightSpTab.
  destruct (rev (L k)) as [|c rest] eqn:Hr.
  - simpl. apply L_inj. apply (f_equal (@rev ascii)) in Hr.
    rewrite rev_involutive in Hr. rewrite Hr. reflexivity.
  - simpl. destruct (is_sp_tab c) eqn:E.
    + exfalso. unfold rtrim in H. rewrite Hr in H. simpl in H.
      rewrite (is_sp_tab_space c E) in H.
      apply (f_equal (@length ascii)) in H. rewrite length_rev in H.
      pose proof (rtrim_rev_prefix_n (length rest) rest (le_n _)) as [p Hp].
      assert (Hl : length (L k) = S (length rest)).
      { rewrite <- length_rev, Hr. reflexivity. }
      rewrite Hp, length_app in Hl. lia.
    + rewrite <- Hr, rev_involutive. apply Str_L.
Qed.

Lemma value_part_quoted (w : string) :
  Str (rtrim (ltrim (rtrim (sp :: L (quoted w))))) = quoted w.
Proof.
  assert (HL : L (quoted w) = app (dq :: L (escapeQuotes w)) [dq]).
  { unfold quoted. rewrite !L_app. reflexivity. }
  assert (Hr : rtrim (sp :: L (quoted w)) = sp :: L (quoted w)).
  { rewrite HL. pose proof (rtrim_app_nonspace (sp :: dq :: L (escapeQuotes w)) [] dq
      byte_dq eq_refl) as E. simpl in E |- *. rewrite E. reflexivity. }
  rewrite Hr. change (ltrim (sp :: L (quoted w))) with (ltrim (L (quoted w))).
  assert (Hq : ltrim (L (quoted w)) = L (quoted w)).
  { rewrite HL. simpl app. apply ltrim_nonspace; [exact byte_dq|reflexivity]. }
  rewrite Hq.
  assert (Hq' : rtrim (L (quoted w)) = L (quoted w)).
  { rewrite HL. rewrite (rtrim_app_nonspace (dq :: L (escapeQuotes w)) [] dq byte_dq eq_refl).
    reflexivity. }
  rewrite Hq'. apply Str_L.
Qed.


(** The line [Add] writes reads back as the entry it added. *)
Lemma parse_new_line (k w : string) :
  ~ In eqc (L k) -> TrimSpace k = k -> has_prefix hash k = false ->
  lastc None w <> Some bslash ->
  parse_line (k ++ " = " ++ quoted w) = mkEntry (k ++ " = " ++ quoted w) k w "" "" false false.
Proof.
  intros Hn Ht Hh Hw. destruct (TrimSpace_fixed k Ht) as [Hl Hr].
  pose proof (L_eq_line k (quoted w)) as HL.
  destruct k as [|a k'].
  - rewrite (parse_line_assign_empty _ [sp] _ HL eq_refl).
    rewrite value_part_quoted, parse_value_quoted by exact Hw. reflexivity.
  - assert (Hlt : ltrim (app (L (String a k')) [sp]) = a :: app (L k') [sp]).
    { rewrite ltrim_app, Hl by exact byte_sp. reflexivity. }
    rewrite (parse_line_assign _ _ _ a _ HL) by
      (exact Hlt || (intros Hin; apply in_app_or in Hin as [Hin|[Hin|[]]];
                     [exact (Hn Hin)|discriminate])).
    simpl in Hh. rewrite Hh.
    rewrite value_part_quoted, parse_value_quoted by exact Hw.
    rewrite Hlt. change (a :: app (L k') [sp]) with (app (L (String a k')) [sp]).
    rewrite rtrim_app_spaces by (repeat constructor). rewrite Hr, Str_L. reflexivity.
Qed.

Lemma save_canonical (K w key : string) :
  ~ In eqc (L K) -> TrimRightSpTab K = K ->
  save_line (mkEntry (K ++ " = " ++ quoted w) key w "" "" false false) = K ++ " = " ++ quoted w.
Proof.
  intros Hn Hr. unfold save_line.
  cbn [IsBlank IsComment Key Value InlineComment InlineCommentSpace Original].
  destruct (negb (String.eqb key "")); [|reflexivity].
  rewrite split_first_app by exact Hn.
  replace (split_first eqc (" = " ++ quoted w)) with (Some (" ", " " ++ quoted w))
    by reflexivity.
  assert (E : TrimRightSpTab (K ++ " ") = TrimRightSpTab K).
  { unfold TrimRightSpTab. rewrite L_app, rev_app_distr. reflexivity. }
  cbv beta iota zeta. rewrite E, Hr. reflexivity.
Qed.

Lemma save_new_entry (k v : string) :
  ~ In eqc (L k) -> rtrim (L k) = L k ->
  save_line (new_entry k v) = k ++ " = " ++ quoted v.
Proof.
  intros Hn Hr. apply save_canonical; [exact Hn|]. now apply TrimRightSpTab_fixed.
Qed.

Lemma dropCR_new_line (k v : string) : dropCR (k ++ " = " ++ quoted v) = k ++ " = " ++ quoted v.
Proof.
  unfold dropCR. rewrite !L_app. unfold quoted. rewrite !L_app.
  rewrite !rev_app_distr. simpl. reflexivity.
Qed.


(** A canonical assignment line is saved back unchanged. *)
Lemma save_parse_canonical (K w : string) :
  ~ In eqc (L K) -> TrimRightSpTab K = K -> lastc None w <> Some bslash ->
  save_line (parse_line (K ++ " = " ++ quoted w)) = K ++ " = " ++ quoted w.
Proof.
  intros Hn Hr Hw. pose proof (L_eq_line K (quoted w)) as HL.
  destruct (ltrim (app (L K) [sp])) as [|a K''] eqn:Hlt.
  - rewrite (parse_line_assign_empty _ _ _ HL Hlt).
    rewrite value_part_quoted, parse_value_quoted by exact Hw.
    now apply save_canonical.
  - rewrite (parse_line_assign _ _ _ a K'' HL) by
      (exact Hlt || (intros Hin; apply in_app_or in Hin as [Hin|[Hin|[]]];
                     [exact (Hn Hin)|discriminate])).
    destruct (Ascii.eqb a hash); [reflexivity|].
    rewrite value_part_quoted, parse_value_quoted by exact Hw.
    now apply save_canonical.
Qed.

(** Comment lines. *)
Lemma parse_comment_line (l : string) :
  has_prefix hash (TrimSpace l) = true \/ (TrimSpace l <> "" /\ ~ In eqc (L l)) ->
  parse_line l = comment_entry l.
Proof.
  intros H. unfold parse_line.
  destruct (String.eqb (TrimSpace l) "") eqn:E.
  { apply String.eqb_eq in E. rewrite E in H. destruct H as [H|[H _]]; [discriminate|tauto]. }
  destruct (has_prefix hash (TrimSpace l)) eqn:Hp; [reflexivity|].
  destruct H as [H|[_ H]]; [discriminate|].
  rewrite split_first_none_intro; [reflexivity|].
  destruct (TrimSpace_infix l) as [p [q Hpq]]. intros Hin. apply H. rewrite Hpq.
  apply in_or_app. right. apply in_or_app. auto.
Qed.

Lemma lastc_rev (w : string) : forall p,
  lastc p w = match rev (L w) with c :: _ => Some c | [] => p end.
Proof.
  induction w as [|x w IH]; intros p; [reflexivity|]. simpl lastc. rewrite IH.
  simpl. destruct (rev (L w)); reflexivity.
Qed.

Lemma get_Str (n : nat) (l : list ascii) : String.get n (Str l) = nth_error l n.
Proof. revert n; induction l as [|c l IH]; intros [|n]; simpl; auto. Qed.

(** The last byte of [w] in Go's terms, [w[len(w)-1]]. *)
Lemma lastc_get (w : string) (c : ascii) :
  String.get (String.length w - 1) w <> Some c -> lastc None w <> Some c.
Proof.
  intros H. rewrite lastc_rev. destruct (rev (L w)) as [|x r] eqn:Hr; [discriminate|].
  intros E. injection E as ->. apply H.
  assert (Hw : L w = app (rev r) [c]).
  { rewrite <- (rev_involutive (L w)), Hr. reflexivity. }
  assert (Hn : String.length w - 1 = length r).
  { rewrite <- L_length, Hw, length_app, length_rev. simpl. lia. }
  rewrite Hn, <- (Str_L w), Hw, get_Str, nth_error_app2 by (rewrite length_rev; lia).
  rewrite length_rev, Nat.sub_diag. reflexivity.
Qed.

Lemma dropCR_id (l : string) : lastc None l <> Some cr -> dropCR l = l.
Proof.
  rewrite lastc_rev. unfold dropCR. destruct (rev (L l)) as [|c r]; [reflexivity|].
  intros H. destruct (Ascii.eqb c cr) eqn:E; [|reflexivity].
  apply Ascii.eqb_eq in E. subst. congruence.
Qed.

End NewLineFacts.
Import NewLineFacts.

(** ** [Add], [Save], [LoadDictionary], [Query] *)
Module RoundTrip.

Lemma lastc_in (w : string) : forall p c, lastc p w = Some c -> p = Some c \/ In c (L w).
Proof.
  induction w as [|x w IH]; intros p c H; simpl in *; [auto|].
  destruct (IH _ _ H) as [E|E]; [injection E as ->|]; auto.
Qed.

Lemma no_bslash_lastc (w : string) : ~ In bslash (L w) -> lastc None w <> Some bslash.
Proof. intros Hn H. destruct (lastc_in w None bslash H) as [E|E]; [discriminate|auto]. Qed.

Lemma unlines_app (a b : list string) : unlines (app a b) = unlines a ++ unlines b.
Proof.
  induction a as [|x a IH]; [reflexivity|].
  change (unlines (app (x :: a) b)) with (x ++ str1 nl ++ unlines (app a b)).
  change (unlines (x :: a)) with (x ++ str1 nl ++ unlines a).
  rewrite IH, !append_assoc. reflexivity.
Qed.

Lemma nonl_new_line (k v : string) : nonl_line k -> nonl_line v ->
  nonl_line (k ++ " = " ++ quoted v).
Proof.
  intros Hk Hv. apply Forall_neq_nonl. rewrite !L_app.
  apply Forall_app; split; [apply nonl_Forall_neq, Hk|].
  apply Forall_app; split; [repeat constructor; discriminate|].
  apply Forall_quoted; try discriminate. apply nonl_Forall_neq, Hv.
Qed.

Section WithTables.
Context {CT : CaseTables}.

Lemma Add_ok (d d' : Dictionary) (k v : string) :
  Add d k v = Ok d' ->
  findEntryCaseInsensitive d k = None /\ d' = mkDict (Filename d) (app (Entries d) [new_entry k v]).
Proof.
  unfold Add, KeyExists. destruct (findEntryCaseInsensitive d k); [discriminate|].
  intros H. injection H as <-. auto.
Qed.

Lemma reload_keys (ls : list string) :
  map Key (map parse_line (map dropCR (map save_line (map parse_line ls)))) =
  map Key (map parse_line ls).
Proof.
  rewrite !map_map. apply map_ext. intros l.
  rewrite parse_line_dropCR_key. apply save_parse_key.
Qed.

(** Adding a well-formed key to a loaded document appends one canonical
    line to the saved bytes, and loading those bytes again finds the value. *)
Lemma add_roundtrip (fn : string) (f : FileState) (d d' : Dictionary) (k v : string) :
  LoadDictionary fn f = Ok d -> Add d k v = Ok d' ->
  ~ In eqc (L k) -> nonl_line k -> TrimSpace k = k -> has_prefix hash k = false ->
  lastc None v <> Some bslash -> nonl_line v ->
  Forall (fun l => String.length l < MaxScanTokenSize) (save_lines d') ->
  Save d' = Save d ++ (k ++ " = " ++ quoted v) ++ str1 nl /\
  exists d'', LoadDictionary fn (Contents (Save d')) = Ok d'' /\ Query d'' k = Ok v.
Proof.
  intros HL HA Hk Hkn Hkt Hkh Hv Hvn Hlen.
  destruct (Load_lines _ _ _ HL) as [Hfn [ls [Hes Hls]]].
  destruct (Add_ok _ _ _ _ HA) as [Hfind ->].
  destruct (TrimSpace_fixed k Hkt) as [_ Hkr].
  assert (Hsl : save_lines (mkDict (Filename d) (app (Entries d) [new_entry k v])) =
                app (map save_line (map parse_line ls)) [k ++ " = " ++ quoted v]).
  { unfold save_lines. simpl. rewrite map_app, Hes. simpl.
    rewrite save_new_entry by assumption. reflexivity. }
  split.
  { unfold Save. rewrite Hsl, unlines_app. unfold save_lines. rewrite Hes.
    simpl. reflexivity. }
  rewrite Hsl in Hlen. simpl LoadDictionary. unfold Save. rewrite Hsl.
  assert (Hnl : Forall nonl_line (app (map save_line (map parse_line ls))
                                      [k ++ " = " ++ quoted v])).
  { apply Forall_app. split.
    - apply Forall_map, Forall_map. eapply Forall_impl; [|exact Hls].
      intros l Hl. now apply nonl_save_line.
    - apply Forall_cons; [now apply nonl_new_line|apply Forall_nil]. }
  rewrite scan_lines_unlines by assumption.
  eexists. split; [reflexivity|].
  unfold Query, findEntryCaseInsensitive. simpl Entries.
  rewrite !map_app. cbn [map].
  change (String " " (String "=" (String " " (quoted v)))) with (" = " ++ quoted v).
  rewrite dropCR_new_line.
  rewrite parse_new_line by (auto using no_bslash_lastc).
  rewrite find_from_app_none.
  - simpl. now rewrite String.eqb_refl.
  - eapply find_from_keys; [symmetry; apply reload_keys|].
    unfold findEntryCaseInsensitive in Hfind. rewrite Hes in Hfind. exact Hfind.
Qed.

End WithTables.
End RoundTrip.
Import RoundTrip.

(** ** [Set], [Add] and [Query] on the same key *)
Module OpsLemmas.
Section WithTables.
Context {CT : CaseTables}.

Lemma find_from_replace (lk : string) (es : list Entry) (i0 j : nat) (e e' : Entry) :
  find_from lk es i0 = Some (j, e) -> String.eqb (ToLower (Key e')) lk = true ->
  find_from lk (replace_nth (j - i0) e' es) i0 = Some (j, e').
Proof.
  revert i0; induction es as [|x es IH]; intros i0 H He'; simpl in H; [discriminate|].
  destruct (String.eqb (ToLower (Key x)) lk) eqn:Hx.
  - injection H as <- <-. rewrite Nat.sub_diag. simpl. now rewrite He'.
  - destruct (find_from_some _ _ _ _ _ H) as [Hle _].
    replace (j - i0) with (S (j - S i0)) by lia. simpl. rewrite Hx. auto.
Qed.

Lemma find_new_entry (d : Dictionary) (k v : string) :
  findEntryCaseInsensitive d k = None ->
  find_from (ToLower k) (app (Entries d) [new_entry k v]) 0 =
  Some (length (Entries d), new_entry k v).
Proof.
  unfold findEntryCaseInsensitive. intros H.
  rewrite find_from_app_none by exact H. simpl. now rewrite String.eqb_refl.
Qed.

(** After [Set], [Query] of the same key gives the value set. *)
Lemma Query_Set (d : Dictionary) (k v : string) : Query (Set_ d k v) k = Ok v.
Proof.
  pose proof (Set_shape d k v) as Hs. unfold Query.
  destruct (findEntryCaseInsensitive d k) as [[i e]|] eqn:Hf.
  - unfold findEntryCaseInsensitive at 1. rewrite Hs.
    unfold findEntryCaseInsensitive in Hf.
    destruct (find_from_some _ _ _ _ _ Hf) as (_ & _ & He).
    pose proof (find_from_replace _ _ 0 i e (set_entry e v) Hf He) as Hr.
    rewrite Nat.sub_0_r in Hr. rewrite Hr. reflexivity.
  - unfold findEntryCaseInsensitive at 1. rewrite Hs, find_new_entry by exact Hf.
    reflexivity.
Qed.

Lemma Add_find (d d' : Dictionary) (k v : string) :
  Add d k v = Ok d' -> findEntryCaseInsensitive d' k = Some (length (Entries d), new_entry k v).
Proof.
  intros H. destruct (Add_ok _ _ _ _ H) as [Hf ->].
  unfold findEntryCaseInsensitive at 1. simpl Entries. now apply find_new_entry.
Qed.

Lemma save_lines_app (fn : string) (es es' : list Entry) :
  Save (mkDict fn (app es es')) = Save (mkDict fn es) ++ Save (mkDict fn es').
Proof. unfold Save, save_lines. simpl. rewrite map_app. apply unlines_app. Qed.

End WithTables.
End OpsLemmas.
Import OpsLemmas.

(** * The claims *)
Module Claims.

(** Go's [strings.Contains] gives the byte-membership the theorems assume. *)
Lemma contains_false (c : ascii) (s : string) : contains c s = false -> ~ In c (L s).
Proof.
  unfold contains. destruct (split_first c s) eqn:E; [discriminate|].
  intros _. now apply split_first_none.
Qed.

Lemma contains_false_nonl (s : string) : contains nl s = false -> nonl_line s.
Proof. apply contains_false. Qed.

(** C8: parsing a line never fails.  Every line is classified as exactly one
    of Blank ([IsBlank]), Comment ([IsComment]) or Entry (neither flag), its
    [Original] text is the line itself, and a line that is not blank and has
    no '=' (in particular one that does not start with '#') becomes a Comment
    entry holding the line verbatim. *)
Theorem parse_line_total (raw : string) :
  Original (parse_line raw) = raw /\
  ((IsBlank (parse_line raw) = true /\ IsComment (parse_line raw) = false) \/
   (IsBlank (parse_line raw) = false /\ IsComment (parse_line raw) = true) \/
   (IsBlank (parse_line raw) = false /\ IsComment (parse_line raw) = false)) /\
  (TrimSpace raw <> "" -> ~ In eqc (L raw) -> parse_line raw = comment_entry raw).
Proof.
  split; [apply parse_line_original|]. split.
  - unfold parse_line.
    destruct (String.eqb _ _); [simpl; auto|]. destruct (has_prefix _ _); [simpl; auto|].
    destruct (split_first _ _) as [[p0 p1]|]; [|simpl; auto].
    destruct (parse_value _) as [[v c] g]. simpl. auto.
  - intros Ht Hn. apply parse_comment_line. auto.
Qed.

Section WithTables.
Context {CT : CaseTables}.

(** C4: [Add] fails with the duplicate-key error exactly when a
    case-insensitive match for the key exists; otherwise it appends one
    entry, with no inline comment and the canonical line [key = "value"],
    at the end.  A second [Add] of the same key fails.  [Set] returns no
    error, whether the key exists or not, and a [Query] of the key then
    gives the value set. *)
Theorem Add_duplicate_spec (d : Dictionary) (k v v' : string) :
  (Add d k v = Err (ErrKeyExists k) <-> findEntryCaseInsensitive d k <> None) /\
  (findEntryCaseInsensitive d k = None ->
   Add d k v = Ok (mkDict (Filename d)
                     (app (Entries d) [mkEntry (k ++ " = " ++ quoted v) k v "" "" false false]))) /\
  (forall d', Add d k v = Ok d' -> Add d' k v' = Err (ErrKeyExists k)) /\
  Query (Set_ d k v') k = Ok v'.
Proof.
  split; [|split; [|split]].
  - unfold Add, KeyExists. destruct (findEntryCaseInsensitive d k).
    + split; [congruence|reflexivity].
    + split; [discriminate|congruence].
  - intros H. unfold Add, KeyExists. now rewrite H.
  - intros d' H. unfold Add at 1, KeyExists. now rewrite (Add_find _ _ _ _ H).
  - apply Query_Set.
Qed.

(** C3: keys are matched case-insensitively and keep the case first used.
    On a document with no entry for "foo" in any case, [Add "foo" "1"]
    succeeds and [Query "FOO"] gives "1"; [Set "Foo" "2"] then rewrites that
    same entry: the document has no second entry, the entry's key is still
    "foo", and the saved file ends with the one line [foo = "2"]. *)
Theorem case_insensitive_identity (d : Dictionary) :
  findEntryCaseInsensitive d "foo" = None ->
  exists d1, Add d "foo" "1" = Ok d1 /\ Query d1 "FOO" = Ok "1" /\
    Entries (Set_ d1 "Foo" "2") =
      app (Entries d) [mkEntry ("foo = " ++ quoted "2") "foo" "2" "" "" false false] /\
    length (Entries (Set_ d1 "Foo" "2")) = length (Entries d1) /\
    Save (Set_ d1 "Foo" "2") = Save d ++ ("foo = " ++ quoted "2") ++ str1 nl.
Proof.
  intros H.
  assert (HA : Add d "foo" "1" =
               Ok (mkDict (Filename d) (app (Entries d) [new_entry "foo" "1"]))).
  { unfold Add, KeyExists. now rewrite H. }
  eexists. split; [exact HA|].
  pose proof (Add_find _ _ _ _ HA) as Hf.
  assert (HF : findEntryCaseInsensitive
                 (mkDict (Filename d) (app (Entries d) [new_entry "foo" "1"])) "Foo"
               = Some (length (Entries d), new_entry "foo" "1")) by exact Hf.
  assert (HE : Entries (Set_ (mkDict (Filename d) (app (Entries d) [new_entry "foo" "1"])) "Foo" "2")
               = app (Entries d) [mkEntry ("foo = " ++ quoted "2") "foo" "2" "" "" false false]).
  { pose proof (Set_shape (mkDict (Filename d) (app (Entries d) [new_entry "foo" "1"])) "Foo" "2")
      as Hs. rewrite HF in Hs. rewrite Hs. simpl Entries.
    rewrite replace_nth_app_last. reflexivity. }
  split; [|split; [exact HE|split]].
  - unfold Query. replace (findEntryCaseInsensitive _ "FOO")
      with (Some (length (Entries d), new_entry "foo" "1")) by (symmetry; exact Hf).
    reflexivity.
  - rewrite HE. simpl. rewrite !length_app. reflexivity.
  - assert (HS : Set_ (mkDict (Filename d) (app (Entries d) [new_entry "foo" "1"])) "Foo" "2"
                 = mkDict (Filename d) (Entries (Set_ (mkDict (Filename d)
                     (app (Entries d) [new_entry "foo" "1"])) "Foo" "2"))).
    { unfold Set_. rewrite HF. reflexivity. }
    rewrite HS, HE, save_lines_app. unfold Save at 1. destruct d as [fn es]. reflexivity.
Qed.

End WithTables.

(** C3 at the empty document. *)
Lemma case_insensitive_identity_witness :
  findEntryCaseInsensitive (mkDict "vm.vmx" []) "foo" = None /\
  exists d1, Add (mkDict "vm.vmx" []) "foo" "1" = Ok d1 /\ Query d1 "FOO" = Ok "1" /\
    Entries (Set_ d1 "Foo" "2") =
      app [] [mkEntry ("foo = " ++ quoted "2") "foo" "2" "" "" false false] /\
    length (Entries (Set_ d1 "Foo" "2")) = length (Entries d1) /\
    Save (Set_ d1 "Foo" "2") = Save (mkDict "vm.vmx" []) ++ ("foo = " ++ quoted "2") ++ str1 nl.
Proof.
  split; [reflexivity|]. apply case_insensitive_identity. reflexivity.
Defined.

Lemma nth_error_app_last_neq {A} (l : list A) (x : A) (j : nat) :
  j <> length l -> nth_error (app l [x]) j = nth_error l j.
Proof.
  intros Hj. destruct (Nat.lt_ge_cases j (length l)) as [Hlt|Hge].
  - now apply nth_error_app1.
  - rewrite nth_error_app2 by exact Hge. rewrite (proj2 (nth_error_None l j)) by exact Hge.
    destruct (j - length l) eqn:E; [lia|]. simpl. now destruct n.
Qed.

Lemma rendered_line (ic ics p w : string) :
  (if negb (String.eqb ic "")
   then (p ++ " = " ++ quoted w) ++ ics ++ ic
   else p ++ " = " ++ quoted w) =
  p ++ " = " ++ quoted w ++ (if String.eqb ic "" then "" else ics ++ ic).
Proof.
  destruct (String.eqb ic ""); simpl negb; cbv iota.
  - now rewrite append_nil_r.
  - now rewrite !append_assoc.
Qed.

(** [Save] re-renders every Entry line with a key from its key text, the
    quoted value and the inline comment. *)
Lemma save_line_entry (e : Entry) :
  IsBlank e = false -> IsComment e = false -> Key e <> "" ->
  exists p, save_line e = p ++ " = " ++ quoted (Value e) ++
    (if String.eqb (InlineComment e) "" then "" else InlineCommentSpace e ++ InlineComment e).
Proof.
  intros Hb Hc Hk. apply String.eqb_neq in Hk.
  unfold save_line. rewrite Hb, Hc, Hk. simpl negb. cbv iota.
  destruct (split_first eqc (Original e)) as [[p0 p1]|].
  - exists (TrimRightSpTab p0). apply rendered_line.
  - exists (Key e). apply rendered_line.
Qed.

(** The key text of an Entry line as [Save] writes it: the text of the
    original line before its first '=' with trailing spaces and tabs cut
    ([strings.TrimRight(parts[0], " \t")]), or the key when the original
    has no '='. *)
Lemma save_line_entry_text (e : Entry) :
  IsBlank e = false -> IsComment e = false -> Key e <> "" ->
  save_line e =
    (match split_first eqc (Original e) with
     | Some (part0, _) => TrimRightSpTab part0
     | None => Key e
     end) ++ " = " ++ quoted (Value e) ++
    (if String.eqb (InlineComment e) "" then "" else InlineCommentSpace e ++ InlineComment e).
Proof.
  intros Hb Hc Hk. apply String.eqb_neq in Hk.
  unfold save_line. rewrite Hb, Hc, Hk. simpl negb. cbv iota.
  destruct (split_first eqc (Original e)) as [[p0 p1]|]; apply rendered_line.
Qed.

(** C1 (as corrected): [Save] and [Print] write a Blank entry as an empty
    line and a Comment entry as its [Original] text, which for a loaded file
    is the line as read; an Entry line is always re-rendered as
    [<key text> = "<escaped value>"], where the key text is the original
    line's text before its first '=' without trailing spaces and tabs (or
    the key, when the original has no '='), followed by the inline-comment spacing
    and comment when there is a comment.  [Set] of one key changes at most
    one line of the output, the updated entry's or one appended line: every
    other line of [Save] and of [Print] is the same as before. *)
Theorem serialize_frame {CT : CaseTables} (d : Dictionary) (k v : string) :
  (forall l, Original (parse_line l) = l) /\
  (forall e, IsBlank e = true -> save_line e = "" /\ print_line e = "") /\
  (forall e, IsBlank e = false -> IsComment e = true ->
     save_line e = Original e /\ print_line e = Original e) /\
  (forall e, IsBlank e = false -> IsComment e = false -> Key e <> "" ->
     save_line e =
       (match split_first eqc (Original e) with
        | Some (part0, _) => TrimRightSpTab part0
        | None => Key e
        end) ++ " = " ++ quoted (Value e) ++
        (if String.eqb (InlineComment e) "" then "" else InlineCommentSpace e ++ InlineComment e) /\
     print_line e = Key e ++ " = " ++ quoted (Value e) ++
        (if String.eqb (InlineComment e) "" then "" else InlineCommentSpace e ++ InlineComment e)) /\
  (exists i, forall j, j <> i ->
     nth_error (save_lines (Set_ d k v)) j = nth_error (save_lines d) j /\
     nth_error (print_lines (Set_ d k v)) j = nth_error (print_lines d) j).
Proof.
  split; [apply parse_line_original|].
  split; [intros e Hb; unfold save_line, print_line; now rewrite Hb|].
  split; [intros e Hb Hc; unfold save_line, print_line; now rewrite Hb, Hc|].
  split.
  { intros e Hb Hc Hk. split; [now apply save_line_entry_text|].
    apply String.eqb_neq in Hk.
    unfold print_line. rewrite Hb, Hc, Hk. simpl negb. cbv iota. apply rendered_line. }
  pose proof (Set_shape d k v) as Hs. unfold save_lines, print_lines.
  destruct (findEntryCaseInsensitive d k) as [[i e]|].
  - exists i. intros j Hj. rewrite Hs, !map_replace_nth.
    split; apply nth_error_replace_nth_neq; exact Hj.
  - exists (length (Entries d)). intros j Hj. rewrite Hs, !map_app.
    split; apply nth_error_app_last_neq; now rewrite length_map.
Qed.

(** C1, counterexample: an untouched Entry line is not re-emitted as read.
    The file [a=x], a line of two spaces, [b = "y"] loads and, after
    [Set "b" "z"], saves as [a = "x"], an empty line, [b = "z"]: the first
    two lines, which [Set] did not touch, lost their spacing and quoting
    style and their whitespace. *)
Lemma serialize_frame_counterexample :
  exists d,
    LoadDictionary "vm.vmx" (Contents ("a=x" ++ str1 nl ++ "  " ++ str1 nl ++
                                       "b = " ++ quoted "y" ++ str1 nl)) = Ok d /\
    Save (Set_ d "b" "z") =
      "a = " ++ quoted "x" ++ str1 nl ++ "" ++ str1 nl ++ "b = " ++ quoted "z" ++ str1 nl.
Proof. eexists. split; [reflexivity|]. vm_compute. reflexivity. Qed.

Section SetTables.
Context {CT : CaseTables}.

(** C7: when [Set] finds the key, it updates that entry in place (same
    index, same number of entries) with the new value and the same key,
    inline comment and gap; its raw line becomes
    [key = "value"] followed by the original gap and inline comment, and
    the lines [Save] and [Print] write for it end with that same quoted
    value, gap and comment. *)
Theorem Set_keeps_inline_comment (d : Dictionary) (k v : string) (i : nat) (e : Entry) :
  findEntryCaseInsensitive d k = Some (i, e) -> IsBlank e = false -> IsComment e = false ->
  nth_error (Entries (Set_ d k v)) i = Some (set_entry e v) /\
  length (Entries (Set_ d k v)) = length (Entries d) /\
  Key (set_entry e v) = Key e /\ Value (set_entry e v) = v /\
  InlineComment (set_entry e v) = InlineComment e /\
  InlineCommentSpace (set_entry e v) = InlineCommentSpace e /\
  Original (set_entry e v) = Key e ++ " = " ++ quoted v ++
    (if String.eqb (InlineComment e) "" then "" else InlineCommentSpace e ++ InlineComment e) /\
  (exists p, nth_error (save_lines (Set_ d k v)) i = Some (p ++ " = " ++ quoted v ++
    (if String.eqb (InlineComment e) "" then "" else InlineCommentSpace e ++ InlineComment e))) /\
  nth_error (print_lines (Set_ d k v)) i = Some (Key e ++ " = " ++ quoted v ++
    (if String.eqb (InlineComment e) "" then "" else InlineCommentSpace e ++ InlineComment e)).
Proof.
  intros Hf Hb Hc.
  pose proof (Set_shape d k v) as Hs. rewrite Hf in Hs.
  destruct (find_lookup _ _ _ _ Hf) as [_ Hlt].
  assert (Ho : Original (set_entry e v) = Key e ++ " = " ++ quoted v ++
    (if String.eqb (InlineComment e) "" then "" else InlineCommentSpace e ++ InlineComment e)).
  { unfold set_entry. cbn [Original]. apply rendered_line. }
  unfold save_lines, print_lines. rewrite Hs, !map_replace_nth.
  rewrite !nth_error_replace_nth_eq by (rewrite ?length_map; exact Hlt).
  split; [reflexivity|]. split; [apply replace_nth_length|].
  do 4 (split; [reflexivity|]). split; [exact Ho|]. split.
  - destruct (String.eqb (Key e) "") eqn:Hk.
    + exists "". unfold save_line. cbn [IsBlank IsComment Key set_entry].
      rewrite Hb, Hc, Hk. simpl negb. cbv iota. f_equal.
      apply String.eqb_eq in Hk. rewrite Ho, Hk. reflexivity.
    + apply String.eqb_neq in Hk.
      destruct (save_line_entry (set_entry e v)) as [p Hp]; [exact Hb|exact Hc|exact Hk|].
      exists p. rewrite Hp. reflexivity.
  - unfold print_line. cbn [IsBlank IsComment Key Value InlineComment InlineCommentSpace set_entry].
    rewrite Hb, Hc. destruct (String.eqb (Key e) "") eqn:Hk.
    + apply String.eqb_eq in Hk. simpl negb. cbv iota. rewrite Ho, Hk. reflexivity.
    + simpl negb. cbv iota. f_equal. apply rendered_line.
Qed.

End SetTables.

(** C7 at a loaded line [k = "a"  # note]: [Set "K" "b"] keeps the two
    spaces and the comment. *)
Lemma Set_keeps_inline_comment_witness :
  findEntryCaseInsensitive
    (mkDict "vm.vmx" [parse_line ("k = " ++ quoted "a" ++ "  # note")]) "K" =
    Some (0, parse_line ("k = " ++ quoted "a" ++ "  # note")) /\
  nth_error (print_lines (Set_ (mkDict "vm.vmx" [parse_line ("k = " ++ quoted "a" ++ "  # note")]) "K" "b")) 0 =
    Some ("k = " ++ quoted "b" ++ "  # note").
Proof.
  assert (Hf : findEntryCaseInsensitive
    (mkDict "vm.vmx" [parse_line ("k = " ++ quoted "a" ++ "  # note")]) "K" =
    Some (0, parse_line ("k = " ++ quoted "a" ++ "  # note"))) by (vm_compute; reflexivity).
  split; [exact Hf|].
  destruct (Set_keeps_inline_comment _ _ "b" _ _ Hf) as (_ & _ & _ & _ & _ & _ & _ & _ & Hp);
    [vm_compute; reflexivity|vm_compute; reflexivity|].
  rewrite Hp. vm_compute. reflexivity.
Defined.

(** The lines C2 is about: every line of the file has no '\n', is shorter
    than the scanner's token limit, and is empty, a comment line not ending in
    '\r' (its trimmed text starts with '#', or it is not blank and has no
    '='), or a canonical assignment [K = "w"] with [w] escaped, no inline
    comment, [K] without '=' and without trailing spaces or tabs, and [w] not
    ending in a backslash. *)
Definition canonical_line (l : string) : Prop :=
  nonl_line l /\ String.length l < MaxScanTokenSize /\
  (l = "" \/
   (String.get (String.length l - 1) l <> Some cr /\
    (has_prefix hash (TrimSpace l) = true \/ (TrimSpace l <> "" /\ ~ In eqc (L l)))) \/
   (exists K w, l = K ++ " = " ++ quoted w /\ ~ In eqc (L K) /\ TrimRightSpTab K = K /\
                String.get (String.length w - 1) w <> Some bslash)).

Lemma canonical_line_fixed (l : string) :
  canonical_line l -> save_line (parse_line (dropCR l)) = l.
Proof.
  intros (_ & _ & [->|[[Hcr Hc]|(K & w & -> & Hk & Ht & Hw)]]).
  - reflexivity.
  - rewrite dropCR_id by (now apply lastc_get).
    rewrite parse_comment_line by exact Hc. reflexivity.
  - rewrite dropCR_new_line. apply save_parse_canonical; auto using lastc_get.
Qed.

(** C2 (as corrected): a file made of lines of [canonical_line], each ended
    by '\n' (so the file is empty or ends in a newline), loads, and saving
    the loaded document writes back exactly the bytes read. *)
Theorem load_save_identity (fn : string) (ls : list string) (d : Dictionary) :
  Forall canonical_line ls ->
  LoadDictionary fn (Contents (unlines ls)) = Ok d -> Save d = unlines ls.
Proof.
  intros Hc HL. unfold LoadDictionary in HL.
  rewrite scan_lines_unlines in HL.
  2: { eapply Forall_impl; [|exact Hc]. intros l Hl. apply Hl. }
  2: { eapply Forall_impl; [|exact Hc]. intros l Hl. apply Hl. }
  injection HL as <-. unfold Save, save_lines. cbn [Entries]. f_equal.
  induction Hc as [|l ls Hl Hls IH]; [reflexivity|].
  cbn [map]. rewrite IH, canonical_line_fixed by exact Hl. reflexivity.
Qed.

(** C2 on the file [# settings], an empty line, [k = "v"]. *)
Lemma load_save_identity_witness :
  exists d,
    LoadDictionary "vm.vmx" (Contents (unlines ["# settings"; ""; "k = " ++ quoted "v"])) = Ok d /\
    Save d = unlines ["# settings"; ""; "k = " ++ quoted "v"].
Proof.
  eexists. split; [reflexivity|].
  apply (load_save_identity "vm.vmx"); [|reflexivity].
  repeat apply Forall_cons; try apply Forall_nil;
    (split; [apply contains_false_nonl; reflexivity|
     split; [apply Nat.ltb_lt; vm_compute; reflexivity|]]).
  - right; left. split; [discriminate|left; reflexivity].
  - left; reflexivity.
  - right; right. exists "k", "v". split; [reflexivity|].
    split; [apply contains_false; reflexivity|split; [reflexivity|discriminate]].
Defined.

(** C2, counterexamples: files whose assignment lines are all canonical but
    whose bytes are not reproduced.  A last line with no '\n' gets one; a
    line ending in "\r\n" loses its '\r'; a line of spaces becomes empty;
    and the canonical line of the value [a\] (written [k = "a\"]) does not
    load back as that value, so it is written differently. *)
Lemma load_save_identity_counterexample :
  (exists d, LoadDictionary "vm.vmx" (Contents ("k = " ++ quoted "v")) = Ok d /\
             Save d = "k = " ++ quoted "v" ++ str1 nl) /\
  (exists d, LoadDictionary "vm.vmx" (Contents ("# c" ++ str1 cr ++ str1 nl)) = Ok d /\
             Save d = "# c" ++ str1 nl) /\
  (exists d, LoadDictionary "vm.vmx" (Contents ("  " ++ str1 nl)) = Ok d /\
             Save d = str1 nl) /\
  (exists d, LoadDictionary "vm.vmx" (Contents (("k = " ++ quoted ("a" ++ str1 bslash)) ++ str1 nl))
               = Ok d /\
             Save d = ("k = " ++ quoted (quoted ("a" ++ str1 bslash))) ++ str1 nl).
Proof.
  split; [|split; [|split]];
    (eexists; split; [reflexivity|]; vm_compute; reflexivity).
Qed.

Lemma lengths_ok (ls : list string) :
  forallb (fun l => String.length l <? MaxScanTokenSize) ls = true ->
  Forall (fun l => String.length l < MaxScanTokenSize) ls.
Proof.
  intros H. apply Forall_forall. intros l Hl.
  apply Nat.ltb_lt. exact (proj1 (forallb_forall _ ls) H l Hl).
Qed.

Section RoundTripTables.
Context {CT : CaseTables}.

(** C6: the value [a"b] is written as ["a\"b"], with the inner quote
    escaped, and comes back exactly.  Adding it under a key [k] (no '=' and
    no newline in [k], no surrounding white space, not starting with '#') to
    a document loaded from a file appends the line [k = "a\"b"] to the saved
    bytes, and loading those bytes and querying [k] gives [a"b]. *)
Theorem quote_value_roundtrip (fn : string) (f : FileState) (d d' : Dictionary) (k : string) :
  LoadDictionary fn f = Ok d -> Add d k ("a" ++ str1 dq ++ "b") = Ok d' ->
  contains eqc k = false -> contains nl k = false ->
  TrimSpace k = k -> has_prefix hash k = false ->
  forallb (fun l => String.length l <? MaxScanTokenSize) (save_lines d') = true ->
  quoted ("a" ++ str1 dq ++ "b") = str1 dq ++ "a" ++ str1 bslash ++ str1 dq ++ "b" ++ str1 dq /\
  Save d' = Save d ++ (k ++ " = " ++ quoted ("a" ++ str1 dq ++ "b")) ++ str1 nl /\
  exists d'', LoadDictionary fn (Contents (Save d')) = Ok d'' /\
              Query d'' k = Ok ("a" ++ str1 dq ++ "b").
Proof.
  intros HL HA He Hn Ht Hh Hlen. split; [reflexivity|].
  apply (add_roundtrip fn f d d' k); auto using contains_false, contains_false_nonl, lengths_ok.
  all: try (intros H; discriminate H).
  all: apply contains_false_nonl; reflexivity.
Qed.

(** C10 (as corrected): for a key [k] with no '=' and no newline, no
    surrounding white space, not starting with '#', and a value [v] with no
    newline whose last byte is not a backslash (backslashes elsewhere are
    fine), adding [k] to a document loaded from a file, saving (every saved
    line shorter than 65536 bytes), loading the bytes again and querying [k]
    gives exactly [v]. *)
Theorem value_roundtrip (fn : string) (f : FileState) (d d' : Dictionary) (k v : string) :
  LoadDictionary fn f = Ok d -> Add d k v = Ok d' ->
  contains eqc k = false -> contains nl k = false ->
  TrimSpace k = k -> has_prefix hash k = false ->
  contains nl v = false -> String.get (String.length v - 1) v <> Some bslash ->
  forallb (fun l => String.length l <? MaxScanTokenSize) (save_lines d') = true ->
  Save d' = Save d ++ (k ++ " = " ++ quoted v) ++ str1 nl /\
  exists d'', LoadDictionary fn (Contents (Save d')) = Ok d'' /\ Query d'' k = Ok v.
Proof.
  intros HL HA He Hn Ht Hh Hvn Hv Hlen.
  apply (add_roundtrip fn f d d' k v);
    auto using contains_false, contains_false_nonl, lengths_ok, lastc_get.
Qed.

End RoundTripTables.

(** C6 on a new file and the key [key]. *)
Lemma quote_value_roundtrip_witness :
  exists d', Add (mkDict "vm.vmx" []) "key" ("a" ++ str1 dq ++ "b") = Ok d' /\
    quoted ("a" ++ str1 dq ++ "b") = str1 dq ++ "a" ++ str1 bslash ++ str1 dq ++ "b" ++ str1 dq /\
    Save d' = Save (mkDict "vm.vmx" []) ++ ("key" ++ " = " ++ quoted ("a" ++ str1 dq ++ "b")) ++ str1 nl /\
    exists d'', LoadDictionary "vm.vmx" (Contents (Save d')) = Ok d'' /\
                Query d'' "key" = Ok ("a" ++ str1 dq ++ "b").
Proof.
  eexists. split; [reflexivity|].
  apply (quote_value_roundtrip "vm.vmx" NotExist (mkDict "vm.vmx" []) _ "key"); reflexivity.
Defined.

(** C10 on a new file, the key [key] and the value [a\b]. *)
Lemma value_roundtrip_witness :
  exists d', Add (mkDict "vm.vmx" []) "key" ("a" ++ str1 bslash ++ "b") = Ok d' /\
    Save d' = Save (mkDict "vm.vmx" []) ++ ("key" ++ " = " ++ quoted ("a" ++ str1 bslash ++ "b")) ++ str1 nl /\
    exists d'', LoadDictionary "vm.vmx" (Contents (Save d')) = Ok d'' /\
                Query d'' "key" = Ok ("a" ++ str1 bslash ++ "b").
Proof.
  eexists. split; [reflexivity|].
  apply (value_roundtrip "vm.vmx" NotExist (mkDict "vm.vmx" []) _ "key"); try reflexivity.
  intros H. vm_compute in H. discriminate H.
Defined.

(** C10, counterexamples: backslash-free values and keys for which the
    round trip fails, on a new file.  A value with a newline is split into
    two lines, and the query gives the text after the '=' up to the
    newline; a key with a leading space is stored trimmed, so the query
    with the key as given finds nothing; a key with '=' is cut at the '='.
    The value [a\b], which has a backslash, round-trips. *)
Lemma value_roundtrip_counterexample :
  (exists d' d'', Add (mkDict "vm.vmx" []) "k" ("a" ++ str1 nl ++ "b") = Ok d' /\
     LoadDictionary "vm.vmx" (Contents (Save d')) = Ok d'' /\
     Query d'' "k" = Ok (str1 dq ++ "a")) /\
  (exists d' d'', Add (mkDict "vm.vmx" []) " k" "v" = Ok d' /\
     LoadDictionary "vm.vmx" (Contents (Save d')) = Ok d'' /\
     Query d'' " k" = Err (ErrKeyNotExist " k")) /\
  (exists d' d'', Add (mkDict "vm.vmx" []) "a=b" "v" = Ok d' /\
     LoadDictionary "vm.vmx" (Contents (Save d')) = Ok d'' /\
     Query d'' "a=b" = Err (ErrKeyNotExist "a=b")) /\
  (exists d' d'', Add (mkDict "vm.vmx" []) "k" ("a" ++ str1 bslash ++ "b") = Ok d' /\
     LoadDictionary "vm.vmx" (Contents (Save d')) = Ok d'' /\
     Query d'' "k" = Ok ("a" ++ str1 bslash ++ "b")).
Proof.
  split; [|split; [|split]];
    (do 2 eexists; split; [reflexivity|]; split; [reflexivity|]; vm_compute; reflexivity).
Qed.

(** The UTF-8 bytes of U+017F LATIN SMALL LETTER LONG S and of U+0130
    LATIN CAPITAL LETTER I WITH DOT ABOVE. *)
Definition long_s : string := String "197" (String "191" "").
Definition dotted_I : string := String "196" (String "176" "").

(** C5, as the code behaves: a missing file loads as an empty document, but
    [Query] and [Remove] disagree on which keys match, because [Remove]
    compares with [strings.EqualFold] while [Query] (through
    [findEntryCaseInsensitive]) compares [strings.ToLower] of both keys.  On
    the file [s = "1"], the key U+017F has no match for [Query], which fails
    with the key-not-found error, yet [Remove] deletes the [s] entry; on the
    file [i = "1"], [Query] of U+0130 finds the entry but [Remove] fails. *)
Theorem Remove_Query_disagree :
  LoadDictionary "vm.vmx" NotExist = Ok (mkDict "vm.vmx" []) /\
  (exists d, LoadDictionary "vm.vmx" (Contents ("s = " ++ quoted "1" ++ str1 nl)) = Ok d /\
     findEntryCaseInsensitive d long_s = None /\
     Query d long_s = Err (ErrKeyNotExist long_s) /\
     Remove d long_s = Ok (mkDict "vm.vmx" [])) /\
  (exists d, LoadDictionary "vm.vmx" (Contents ("i = " ++ quoted "1" ++ str1 nl)) = Ok d /\
     Query d dotted_I = Ok "1" /\
     Remove d dotted_I = Err (ErrKeyNotExist dotted_I)).
Proof.
  split; [reflexivity|]. split;
    (eexists; split; [reflexivity|]; vm_compute; repeat split).
Qed.

(** C9, as the code behaves: the file [<U+017F> = "0"], [s = "1"], [S = "2"]
    (a U+017F key, then two keys equal up to case) loads with all three entries.
    [Query "s"] and [Set "s"] use the [s] line, the first whose lower-cased
    key is "s"; [Remove "s"] instead deletes the U+017F line, which
    [strings.EqualFold] matches, and keeps both the [s] and [S] lines. *)
Theorem duplicate_keys_first_match :
  exists d d',
    LoadDictionary "vm.vmx"
      (Contents ((long_s ++ " = " ++ quoted "0") ++ str1 nl ++
                 ("s = " ++ quoted "1") ++ str1 nl ++ ("S = " ++ quoted "2") ++ str1 nl)) = Ok d /\
    length (Entries d) = 3 /\
    Query d "s" = Ok "1" /\
    Save (Set_ d "s" "9") =
      (long_s ++ " = " ++ quoted "0") ++ str1 nl ++
      ("s = " ++ quoted "9") ++ str1 nl ++ ("S = " ++ quoted "2") ++ str1 nl /\
    Remove d "s" = Ok d' /\
    Save d' = ("s = " ++ quoted "1") ++ str1 nl ++ ("S = " ++ quoted "2") ++ str1 nl.
Proof.
  do 2 eexists. split; [reflexivity|]. split; [reflexivity|].
  split; [vm_compute; reflexivity|]. split; [vm_compute; reflexivity|].
  split; [vm_compute; reflexivity|]. vm_compute. reflexivity.
Qed.

End Claims.

(** * The command line: [parseKeyValue] and [run] *)
Module Cli.

(** The two errors of [parseKeyValue] ([errors.New]). *)
Inductive kv_error :=
| ErrInvalidFormat   (* "invalid format: expected KEY=VALUE" *)
| ErrEmptyKey.       (* "key cannot be empty" *)

Definition kv_message (e : kv_error) : string :=
  match e with
  | ErrInvalidFormat => "invalid format: expected KEY=VALUE"
  | ErrEmptyKey => "key cannot be empty"
  end.

Inductive kv_result :=
| KVOk (key value : string)
| KVErr (e : kv_error).

(** [parseKeyValue] *)
Definition parseKeyValue (kv : string) : kv_result :=
  match split_first eqc kv with
  | None => KVErr ErrInvalidFormat
  | Some (part0, part1) =>
      let key := TrimSpace part0 in
      let value := TrimSpace part1 in
      let value :=
        if (2 <=? String.length value)
           && match String.get 0 value with Some c => Ascii.eqb c dq | None => false end
           && match String.get (String.length value - 1) value with
              | Some c => Ascii.eqb c dq | None => false end
        then unescapeQuotes (slice 1 (String.length value - 1) value)
        else value in
      if String.eqb key "" then KVErr ErrEmptyKey else KVOk key value
  end.

(** What [run] writes to standard output, one item per [fmt] call:
    [Line s] is a line [s] (with [fmt.Println] or a [Printf] format ending
    in a newline); [ErrLine p e] is [fmt.Printf(p + "%v\n", err)] for an
    error of the dictionary; [SaveErrLine] is
    [fmt.Printf("Error saving file: %v\n", err)] for an I/O error of [Save];
    [Help] and [Version] are the fixed texts of [printHelp] and
    [printVersion]. *)
Inductive Out :=
| Line (s : string)
| ErrLine (prefix : string) (e : error)
| SaveErrLine
| Help
| Version.

(** The file system as [run] sees it: what [os.Open] finds for each name,
    and whether [Save] (its [os.Create], writes and [Flush]) succeeds. *)
Record World := mkWorld {
  fs : string -> FileState;
  save_ok : string -> bool
}.

(** The exit code, the output, and the call of [Save], if any: the file
    name and the bytes it writes (when [save_ok] is false the write fails
    part way). *)
Record Outcome := mkOutcome {
  code : nat;
  out : list Out;
  written : option (string * string)
}.

Section WithTables.
Context {CT : CaseTables}.

(** [dict.Save(filename)] followed by its error check. *)
Definition save_to (w : World) (filename : string) (d : Dictionary) : Outcome :=
  if save_ok w filename then mkOutcome 0 [] (Some (filename, Save d))
  else mkOutcome 1 [SaveErrLine] (Some (filename, Save d)).

(** [LoadDictionary(filename)] followed by its error check. *)
Definition with_loaded (w : World) (filename : string) (k : Dictionary -> Outcome) : Outcome :=
  match LoadDictionary filename (fs w filename) with
  | Ok d => k d
  | Err e => mkOutcome 1 [ErrLine "Error loading file: " e] None
  end.

Definition usage_error (msg usage : string) : Outcome :=
  mkOutcome 1 [Line msg; Line usage] None.

(** [run], on [os.Args]. *)
Definition run (args : list string) (w : World) : Outcome :=
  match args with
  | [] | [_] =>
      mkOutcome 1 [Line "Error: no command provided";
                   Line "Use 'vmxtool help' for usage information"] None
  | _ :: command :: rest =>
      if String.eqb command "help" then mkOutcome 0 [Help] None
      else if String.eqb command "version" then mkOutcome 0 [Version] None
      else if String.eqb command "print" then
        match rest with
        | [filename] =>
            with_loaded w filename (fun d => mkOutcome 0 (map Line (print_lines d)) None)
        | _ => usage_error "Error: print command requires FILE argument"
                           "Usage: vmxtool print FILE"
        end
      else if String.eqb command "add" then
        match rest with
        | [filename; keyValue] =>
            match parseKeyValue keyValue with
            | KVErr e => mkOutcome 1 [Line ("Error: " ++ kv_message e)] None
            | KVOk key value =>
                with_loaded w filename (fun d =>
                  if KeyExists d key then
                    (* [findEntryCaseInsensitive(key)] is not nil here *)
                    let existingKey :=
                      match findEntryCaseInsensitive d key with
                      | Some (_, e) => Key e | None => "" end in
                    mkOutcome 1 [Line ("Error: key '" ++ key ++ "' already exists (as '"
                                       ++ existingKey ++ "')")] None
                  else
                    match Add d key value with
                    | Err e => mkOutcome 1 [ErrLine "Error: " e] None
                    | Ok d' => save_to w filename d'
                    end)
            end
        | _ => usage_error "Error: add command requires FILE and KEY=VALUE arguments"
                           "Usage: vmxtool add FILE KEY=VALUE"
        end
      else if String.eqb command "set" then
        match rest with
        | [filename; keyValue] =>
            match parseKeyValue keyValue with
            | KVErr e => mkOutcome 1 [Line ("Error: " ++ kv_message e)] None
            | KVOk key value =>
                with_loaded w filename (fun d => save_to w filename (Set_ d key value))
            end
        | _ => usage_error "Error: set command requires FILE and KEY=VALUE arguments"
                           "Usage: vmxtool set FILE KEY=VALUE"
        end
      else if String.eqb command "remove" then
        match rest with
        | [filename; key] =>
            with_loaded w filename (fun d =>
              match Remove d key with
              | Err e => mkOutcome 1 [ErrLine "Error: " e] None
              | Ok d' => save_to w filename d'
              end)
        | _ => usage_error "Error: remove command requires FILE and KEY arguments"
                           "Usage: vmxtool remove FILE KEY"
        end
      else if String.eqb command "query" then
        match rest with
        | [filename; key] =>
            with_loaded w filename (fun d =>
              match Query d key with
              | Ok value => mkOutcome 0 [Line value] None
              | Err e => mkOutcome 1 [ErrLine "Error: " e] None
              end)
        | _ => usage_error "Error: query command requires FILE and KEY arguments"
                           "Usage: vmxtool query FILE KEY"
        end
      else
        mkOutcome 1 [Line ("Error: unknown command '" ++ command ++ "'");
                     Line "Use 'vmxtool help' for usage information"] None
  end.

End WithTables.
End Cli.
Import Cli.

(** ** More on trimming, lookup and the last byte *)
Module MoreFacts.

Lemma length_lt_false (a : ascii) (l m : list ascii) : length m <= length l -> m <> a :: l.
Proof. intros H E. subst. simpl in H. lia. Qed.

(** A prefix of a left-trimmed byte list is left-trimmed. *)
Lemma ltrim_fixed_prefix (p q : list ascii) : ltrim (app p q) = app p q -> ltrim p = p.
Proof.
  intros H. destruct p as [|a p1]; [reflexivity|].
  destruct (is_ascii_space a) eqn:Ha.
  { exfalso. simpl in H. rewrite Ha in H.
    eapply length_lt_false; [apply ltrim_length|exact H]. }
  destruct p1 as [|b p2]; [simpl; rewrite Ha; reflexivity|].
  destruct (two_byte_space a b) eqn:Hab.
  { exfalso. simpl in H. rewrite Ha, Hab in H.
    eapply (length_lt_false a (b :: app p2 q)); [|exact H].
    simpl. pose proof (ltrim_length (app p2 q)). lia. }
  destruct p2 as [|c p3]; [simpl; rewrite Ha, Hab; reflexivity|].
  destruct (three_byte_space a b c) eqn:Habc.
  { exfalso. simpl in H. rewrite Ha, Hab, Habc in H.
    eapply (length_lt_false a (b :: c :: app p3 q)); [|exact H].
    simpl. pose proof (ltrim_length (app p3 q)). lia. }
  simpl. rewrite Ha, Hab, Habc. reflexivity.
Qed.

Lemma rtrim_rev_idem_n (n : nat) : forall A, length A <= n -> rtrim_rev (rtrim_rev A) = rtrim_rev A.
Proof.
  induction n as [|n IH]; intros A Hlen.
  { destruct A; simpl in *; [reflexivity|lia]. }
  destruct A as [|c A1]; [reflexivity|]. simpl in Hlen. cbn [rtrim_rev].
  destruct (is_ascii_space c) eqn:Hc; [apply IH; lia|].
  destruct A1 as [|b A2]; [simpl; rewrite Hc; reflexivity|].
  destruct (two_byte_space b c) eqn:Hbc; [apply IH; simpl in Hlen; lia|].
  destruct A2 as [|a A3]; [simpl; rewrite Hc, Hbc; reflexivity|].
  destruct (three_byte_space a b c) eqn:Habc; [apply IH; simpl in Hlen; lia|].
  simpl. rewrite Hc, Hbc, Habc. reflexivity.
Qed.

Lemma rtrim_idem (A : list ascii) : rtrim (rtrim A) = rtrim A.
Proof.
  unfold rtrim. rewrite rev_involutive.
  rewrite (rtrim_rev_idem_n (length (rev A)) (rev A)) by lia. reflexivity.
Qed.

(** [strings.TrimSpace] is idempotent. *)
Lemma TrimSpace_idem (s : string) : TrimSpace (TrimSpace s) = TrimSpace s.
Proof.
  apply L_inj. rewrite !TrimSpace_L.
  set (y := ltrim (L s)).
  assert (Hy : ltrim y = y) by apply ltrim_idem.
  destruct (rtrim_prefix y) as [q Hq].
  assert (Hl : ltrim (rtrim y) = rtrim y).
  { apply (ltrim_fixed_prefix _ q). rewrite <- Hq. exact Hy. }
  rewrite Hl. apply rtrim_idem.
Qed.

Lemma Forall_neq_In (x : ascii) (l : list ascii) : Forall (fun c => c <> x) l <-> ~ In x l.
Proof.
  rewrite Forall_forall. split.
  - intros H Hin. exact (H x Hin eq_refl).
  - intros H c Hc E. subst. contradiction.
Qed.

Lemma TrimSpace_notin (x : ascii) (s : string) : ~ In x (L s) -> ~ In x (L (TrimSpace s)).
Proof.
  intros H. apply Forall_neq_In. apply Forall_TrimSpace. apply Forall_neq_In, H.
Qed.

Lemma nth_error_last {A} (l : list A) :
  nth_error l (length l - 1) = match rev l with c :: _ => Some c | [] => None end.
Proof.
  destruct l as [|x l] using rev_ind; [reflexivity|].
  rewrite rev_app_distr. simpl. rewrite length_app. simpl.
  replace (length l + 1 - 1) with (length l) by lia.
  rewrite nth_error_app2 by lia. rewrite Nat.sub_diag. reflexivity.
Qed.

(** [lastc None w] is Go's [w[len(w)-1]] (none for the empty string). *)
Lemma lastc_get_eq (w : string) : lastc None w = String.get (String.length w - 1) w.
Proof.
  assert (H : String.get (String.length w - 1) w = nth_error (L w) (length (L w) - 1)).
  { rewrite L_length, <- get_Str, Str_L. reflexivity. }
  rewrite H, nth_error_last, lastc_rev. reflexivity.
Qed.

Lemma get_app_length (s t : string) (c : ascii) :
  String.get (String.length s) (s ++ String c t) = Some c.
Proof. induction s as [|x s IH]; simpl; auto. Qed.

Lemma TrimSpace_quoted (w : string) : TrimSpace (quoted w) = quoted w.
Proof.
  apply L_inj. rewrite TrimSpace_L.
  assert (HL : L (quoted w) = app (dq :: L (escapeQuotes w)) [dq]).
  { unfold quoted. rewrite !L_app. reflexivity. }
  rewrite HL. simpl app.
  rewrite ltrim_nonspace by (reflexivity || apply byte_dq).
  change (dq :: app (L (escapeQuotes w)) [dq]) with (app (dq :: L (escapeQuotes w)) [dq]).
  rewrite rtrim_app_nonspace by (reflexivity || apply byte_dq).
  rewrite rtrim_nil. reflexivity.
Qed.

Lemma TrimSpace_sp_quoted (w : string) : TrimSpace (" " ++ quoted w) = quoted w.
Proof.
  rewrite <- TrimSpace_quoted at 2. apply L_inj. rewrite !TrimSpace_L.
  change (L (" " ++ quoted w)) with (sp :: L (quoted w)).
  cbn [ltrim]. replace (is_ascii_space sp) with true by reflexivity. reflexivity.
Qed.

Lemma TrimSpace_sp_right (k : string) : TrimSpace k = k -> k <> "" -> TrimSpace (k ++ " ") = k.
Proof.
  intros Hk Hne. destruct (TrimSpace_fixed k Hk) as [Hl Hr].
  apply L_inj. rewrite TrimSpace_L, L_app.
  rewrite ltrim_app by (simpl; apply byte_sp). rewrite Hl.
  assert (Hn : L k <> []) by (intros E; apply Hne, L_inj; rewrite E; reflexivity).
  replace (match L k with [] => ltrim (L " ") | _ :: _ => app (L k) (L " ") end)
    with (app (L k) [sp]) by (destruct (L k); [contradiction|reflexivity]).
  rewrite rtrim_app_spaces by (repeat constructor). exact Hr.
Qed.

Lemma quoted_arg_strip (w : string) :
  ((2 <=? String.length (quoted w))
   && match String.get 0 (quoted w) with Some c => Ascii.eqb c dq | None => false end
   && match String.get (String.length (quoted w) - 1) (quoted w) with
      | Some c => Ascii.eqb c dq | None => false end) = true /\
  slice 1 (String.length (quoted w) - 1) (quoted w) = escapeQuotes w.
Proof.
  rewrite length_quoted.
  replace (2 + String.length (escapeQuotes w) - 1) with (S (String.length (escapeQuotes w))) by lia.
  unfold quoted.
  change (str1 dq ++ escapeQuotes w ++ str1 dq) with (String dq (escapeQuotes w ++ String dq "")).
  split.
  - cbn [String.get]. rewrite get_app_length. reflexivity.
  - unfold slice. replace (S (String.length (escapeQuotes w)) - 1)
      with (String.length (escapeQuotes w)) by lia.
    rewrite substring_shift, substring_0_app. reflexivity.
Qed.

End MoreFacts.
Import MoreFacts.

(** * Further properties of the code *)
Module Extras.

(** Worlds for the runs below: no file at all; every open failing; one
    file holding [memSize = "1"]. *)
Definition world_empty : World := mkWorld (fun _ => NotExist) (fun _ => true).
Definition world_unreadable : World := mkWorld (fun _ => OpenFails) (fun _ => true).
Definition world_mem : World :=
  mkWorld (fun _ => Contents ("memSize = " ++ quoted "1" ++ str1 nl)) (fun _ => true).

(** A document with one entry and one comment line. *)
Definition doc_mem : Dictionary :=
  mkDict "a.vmx" [parse_line ("memSize = " ++ quoted "1"); parse_line "# c"].

(** No key of [es] equals [k] under [strings.EqualFold], the test of the
    loop in [Remove]. *)
Definition no_fold_match `{CaseTables} (k : string) (es : list Entry) : bool :=
  forallb (fun x => negb (EqualFold (Key x) k)) es.

Lemma split_first_eq (a b : string) :
  ~ In eqc (L a) -> split_first eqc (a ++ String eqc b) = Some (a, b).
Proof. intros H. rewrite split_first_app by exact H. rewrite split_first_here. now rewrite append_nil_r. Qed.

Lemma In_eqc_app (a b : string) : In eqc (L (a ++ String eqc b)).
Proof. rewrite L_app. apply in_or_app. right. left. reflexivity. Qed.

Lemma split_last (s : string) (x : ascii) :
  String.get (String.length s - 1) s = Some x ->
  s = substring 0 (String.length s - 1) s ++ str1 x.
Proof.
  induction s as [|c s IH]; [discriminate|]. intros H.
  destruct s as [|c' s'].
  - simpl in H. injection H as ->. reflexivity.
  - assert (E : String.length (String c (String c' s')) - 1
                = S (String.length (String c' s') - 1)) by (simpl; lia).
    rewrite E in H |- *. cbn [String.get] in H. simpl substring. simpl append.
    f_equal. apply IH. exact H.
Qed.

(** The shape [parseKeyValue] strips: a value of at least two bytes that
    starts and ends with a double quote. *)
Lemma wrapped_value (s : string) :
  ((2 <=? String.length s)
   && match String.get 0 s with Some c => Ascii.eqb c dq | None => false end
   && match String.get (String.length s - 1) s with
      | Some c => Ascii.eqb c dq | None => false end) = true ->
  s = String dq (slice 1 (String.length s - 1) s ++ str1 dq).
Proof.
  intros H. apply andb_true_iff in H as [H H3]. apply andb_true_iff in H as [H1 H2].
  apply Nat.leb_le in H1.
  destruct s as [|c s']; [simpl in H1; lia|].
  simpl in H2. apply Ascii.eqb_eq in H2. subst c.
  destruct (String.get (String.length (String dq s') - 1) (String dq s')) as [y|] eqn:Hy;
    [|discriminate]. apply Ascii.eqb_eq in H3. subst y.
  simpl in H1. simpl String.length in Hy |- *.
  replace (S (String.length s') - 1) with (S (String.length s' - 1)) in Hy by lia.
  cbn [String.get] in Hy. unfold slice.
  replace (S (String.length s') - 1 - 1) with (String.length s' - 1) by lia.
  rewrite substring_shift. f_equal. apply split_last. exact Hy.
Qed.

(** The key [parseKeyValue] returns, as [run] relies on it. *)
Lemma parse_kv_key (kv k v : string) :
  parseKeyValue kv = KVOk k v -> k <> "" /\ TrimSpace k = k /\ ~ In eqc (L k).
Proof.
  unfold parseKeyValue. destruct (split_first eqc kv) as [[a b]|] eqn:E; [|discriminate].
  pose proof (split_first_some _ _ _ _ E) as [_ Ha]. cbv zeta.
  destruct (String.eqb (TrimSpace a) "") eqn:Ht; [discriminate|].
  intros H. injection H as <- _.
  split; [now apply String.eqb_neq|]. split; [apply TrimSpace_idem|]. now apply TrimSpace_notin.
Qed.

(** Text of the form ["m"] passes the quote test of [parseKeyValue]. *)
Lemma wrapped_test_true (m : string) :
  ((2 <=? String.length (String dq (m ++ str1 dq)))
   && match String.get 0 (String dq (m ++ str1 dq)) with
      | Some c => Ascii.eqb c dq | None => false end
   && match String.get (String.length (String dq (m ++ str1 dq)) - 1)
                       (String dq (m ++ str1 dq)) with
      | Some c => Ascii.eqb c dq | None => false end) = true.
Proof.
  assert (E : String.length (String dq (m ++ str1 dq)) - 1 = S (String.length m)).
  { simpl. rewrite length_append. simpl. lia. }
  rewrite E. apply andb_true_iff. split; [apply andb_true_iff; split|].
  - apply Nat.leb_le. simpl. rewrite length_append. simpl. lia.
  - reflexivity.
  - cbn [String.get]. change (str1 dq) with (String dq ""). rewrite get_app_length.
    apply Ascii.eqb_refl.
Qed.

(** X1: [parseKeyValue] fails with "invalid format" exactly when the
    argument has no '=', and with "key cannot be empty" exactly when the
    text before its first '=' is blank. *)
Theorem parseKeyValue_errors (kv : string) :
  (parseKeyValue kv = KVErr ErrInvalidFormat <-> ~ In eqc (L kv)) /\
  (parseKeyValue kv = KVErr ErrEmptyKey <->
   exists a b, kv = a ++ String eqc b /\ ~ In eqc (L a) /\ TrimSpace a = "").
Proof.
  unfold parseKeyValue. destruct (split_first eqc kv) as [[a b]|] eqn:E.
  - pose proof (split_first_some _ _ _ _ E) as [Hkv Ha]. cbv zeta.
    destruct (String.eqb (TrimSpace a) "") eqn:Ht; split; split.
    + discriminate.
    + intros H. exfalso. apply H. rewrite Hkv. apply In_eqc_app.
    + intros _. exists a, b. split; [exact Hkv|split; [exact Ha|]]. now apply String.eqb_eq.
    + reflexivity.
    + discriminate.
    + intros H. exfalso. apply H. rewrite Hkv. apply In_eqc_app.
    + discriminate.
    + intros (a' & b' & Hkv' & Ha' & Ht'). rewrite Hkv', split_first_eq in E by exact Ha'.
      injection E as <- <-. rewrite Ht' in Ht. discriminate.
  - pose proof (split_first_none _ _ E) as Hn. split; split; auto; try discriminate.
    intros (a' & b' & Hkv' & _). exfalso. apply Hn. rewrite Hkv'. apply In_eqc_app.
Qed.

(** X2: a key [parseKeyValue] accepts is not empty, has no surrounding
    white space and no '=': it is the trimmed text before the first '='.
    When the trimmed text after it is wrapped in double quotes (it has the
    form ["m"]), the value is the text [m] between them with each
    backslash-quote pair turned into a quote; otherwise the value is that
    trimmed text. *)
Theorem parseKeyValue_ok (kv k v : string) :
  parseKeyValue kv = KVOk k v ->
  k <> "" /\ TrimSpace k = k /\ ~ In eqc (L k) /\
  exists a b, kv = a ++ String eqc b /\ ~ In eqc (L a) /\ k = TrimSpace a /\
    ((exists m, TrimSpace b = String dq (m ++ str1 dq) /\ v = unescapeQuotes m) \/
     ((forall m, TrimSpace b <> String dq (m ++ str1 dq)) /\ v = TrimSpace b)).
Proof.
  unfold parseKeyValue. destruct (split_first eqc kv) as [[a b]|] eqn:E; [|discriminate].
  pose proof (split_first_some _ _ _ _ E) as [Hkv Ha]. cbv zeta.
  destruct (String.eqb (TrimSpace a) "") eqn:Ht; [discriminate|].
  intros H. injection H as Hk Hv. subst k.
  split; [now apply String.eqb_neq|]. split; [apply TrimSpace_idem|].
  split; [now apply TrimSpace_notin|].
  exists a, b. do 3 (split; [reflexivity || assumption|]).
  destruct (_ && _ && _) eqn:Hw.
  - left. exists (slice 1 (String.length (TrimSpace b) - 1) (TrimSpace b)).
    split; [apply wrapped_value, Hw|]. now symmetry.
  - right. split; [|now symmetry].
    intros m Hm. rewrite Hm in Hw.
    pose proof (eq_trans (eq_sym (wrapped_test_true m)) Hw) as F. discriminate F.
Qed.

(** X3: the command-line form of a canonical line parses back: for a key
    with no '=', no surrounding white space and not empty, and any value,
    [parseKeyValue] of [key="value"] and of [key = "value"] (the value
    quoted and escaped as [Save] writes it) gives the key and the value. *)
Theorem parseKeyValue_quoted (k v : string) :
  ~ In eqc (L k) -> TrimSpace k = k -> k <> "" ->
  parseKeyValue (k ++ "=" ++ quoted v) = KVOk k v /\
  parseKeyValue (k ++ " = " ++ quoted v) = KVOk k v.
Proof.
  intros Hn Hk Hne. destruct (quoted_arg_strip v) as [H1 H2].
  assert (He : String.eqb k "" = false) by now apply String.eqb_neq.
  split.
  - unfold parseKeyValue. change (k ++ "=" ++ quoted v) with (k ++ String eqc (quoted v)).
    rewrite split_first_eq by exact Hn. cbv zeta.
    rewrite Hk, TrimSpace_quoted, H1, H2, unescape_escape, He. reflexivity.
  - unfold parseKeyValue.
    replace (k ++ " = " ++ quoted v) with ((k ++ " ") ++ String eqc (" " ++ quoted v))
      by (rewrite append_assoc; reflexivity).
    rewrite split_first_eq.
    2: { rewrite L_app. intros Hin. apply in_app_or in Hin as [Hin|[Hin|[]]];
         [contradiction|discriminate]. }
    cbv zeta. rewrite TrimSpace_sp_right by assumption.
    rewrite TrimSpace_sp_quoted, H1, H2, unescape_escape, He. reflexivity.
Qed.

Lemma parseKeyValue_ok_witness :
  exists k v, parseKeyValue " memsize = 4096 " = KVOk k v /\
  k <> "" /\ TrimSpace k = k /\ ~ In eqc (L k) /\
  exists a b, " memsize = 4096 " = a ++ String eqc b /\ ~ In eqc (L a) /\ k = TrimSpace a /\
    ((exists m, TrimSpace b = String dq (m ++ str1 dq) /\ v = unescapeQuotes m) \/
     ((forall m, TrimSpace b <> String dq (m ++ str1 dq)) /\ v = TrimSpace b)).
Proof.
  do 2 eexists. split; [vm_compute; reflexivity|].
  apply (parseKeyValue_ok " memsize = 4096 "). vm_compute. reflexivity.
Defined.

Lemma parseKeyValue_quoted_witness :
  ~ In eqc (L "displayName") /\ TrimSpace "displayName" = "displayName" /\
  "displayName" <> "" /\
  parseKeyValue ("displayName" ++ "=" ++ quoted ("my " ++ str1 dq ++ "vm")) =
    KVOk "displayName" ("my " ++ str1 dq ++ "vm") /\
  parseKeyValue ("displayName" ++ " = " ++ quoted ("my " ++ str1 dq ++ "vm")) =
    KVOk "displayName" ("my " ++ str1 dq ++ "vm").
Proof.
  assert (H1 : ~ In eqc (L "displayName")) by (simpl; intuition discriminate).
  assert (H2 : TrimSpace "displayName" = "displayName") by (vm_compute; reflexivity).
  assert (H3 : "displayName" <> "") by discriminate.
  split; [exact H1|]. split; [exact H2|]. split; [exact H3|].
  apply (parseKeyValue_quoted "displayName"); assumption.
Defined.

Section RunTables.
Context {CT : CaseTables}.

Lemma save_to_written (w : World) (fn fn' b : string) (d : Dictionary) :
  written (save_to w fn d) = Some (fn', b) ->
  fn' = fn /\ b = Save d /\ (code (save_to w fn d) = 0 <-> save_ok w fn = true).
Proof.
  unfold save_to. destruct (save_ok w fn); simpl; intros H; injection H as <- <-;
    repeat split; try reflexivity; discriminate.
Qed.

Lemma with_loaded_written (w : World) (fn : string) (k : Dictionary -> Outcome) x :
  written (with_loaded w fn k) = Some x ->
  exists d, LoadDictionary fn (fs w fn) = Ok d /\ with_loaded w fn k = k d.
Proof.
  unfold with_loaded. destruct (LoadDictionary fn (fs w fn)) as [d|e]; [|discriminate].
  intros _. exists d. auto.
Qed.

(** X4: [run] writes a file only for the commands add, set and remove,
    called with exactly a FILE and one more argument; the file written is
    FILE, and the exit code is 0 exactly when the save succeeds. *)
Theorem run_written (args : list string) (w : World) (fn b : string) :
  written (run args w) = Some (fn, b) ->
  exists p cmd x, args = [p; cmd; fn; x] /\
    (cmd = "add" \/ cmd = "set" \/ cmd = "remove") /\
    (code (run args w) = 0 <-> save_ok w fn = true).
Proof.
  intros H. destruct args as [|p [|cmd rest]]; [discriminate|discriminate|].
  unfold run in *.
  destruct (String.eqb cmd "help"); [discriminate|].
  destruct (String.eqb cmd "version"); [discriminate|].
  destruct (String.eqb cmd "print").
  { destruct rest as [|f [|]]; try discriminate.
    destruct (with_loaded_written _ _ _ _ H) as [d [_ E]]. rewrite E in H. discriminate. }
  destruct (String.eqb cmd "add") eqn:Ea.
  { apply String.eqb_eq in Ea. subst cmd.
    destruct rest as [|f [|kv [|]]]; try discriminate.
    destruct (parseKeyValue kv) as [k v|e]; [|discriminate].
    destruct (with_loaded_written _ _ _ _ H) as [d [_ E]]. rewrite E in H |- *.
    destruct (KeyExists d k); [discriminate|].
    destruct (Add d k v) as [d'|e]; [|discriminate].
    destruct (save_to_written _ _ _ _ _ H) as [-> [_ Hc]].
    exists p, "add", kv. auto. }
  destruct (String.eqb cmd "set") eqn:Es.
  { apply String.eqb_eq in Es. subst cmd.
    destruct rest as [|f [|kv [|]]]; try discriminate.
    destruct (parseKeyValue kv) as [k v|e]; [|discriminate].
    destruct (with_loaded_written _ _ _ _ H) as [d [_ E]]. rewrite E in H |- *.
    destruct (save_to_written _ _ _ _ _ H) as [-> [_ Hc]].
    exists p, "set", kv. auto. }
  destruct (String.eqb cmd "remove") eqn:Er.
  { apply String.eqb_eq in Er. subst cmd.
    destruct rest as [|f [|key [|]]]; try discriminate.
    destruct (with_loaded_written _ _ _ _ H) as [d [_ E]]. rewrite E in H |- *.
    destruct (Remove d key) as [d'|e]; [|discriminate].
    destruct (save_to_written _ _ _ _ _ H) as [-> [_ Hc]].
    exists p, "remove", key. auto. }
  destruct (String.eqb cmd "query").
  { destruct rest as [|f [|key [|]]]; try discriminate.
    destruct (with_loaded_written _ _ _ _ H) as [d [_ E]]. rewrite E in H.
    destruct (Query d key); discriminate. }
  discriminate.
Qed.

(** X5: add and set reject a malformed KEY=VALUE argument with exit code 1
    and the parse error's message, before the file is read: whatever the
    file system holds, nothing is written. *)
Theorem run_kv_error (p cmd fn kv : string) (e : kv_error) (w : World) :
  parseKeyValue kv = KVErr e -> cmd = "add" \/ cmd = "set" ->
  run [p; cmd; fn; kv] w = mkOutcome 1 [Line ("Error: " ++ kv_message e)] None.
Proof.
  intros Hkv [-> | ->]; unfold run; simpl String.eqb; cbv iota; rewrite Hkv; reflexivity.
Qed.

(** X6: a file that cannot be opened (other than a missing one) or that has
    a line of 65536 bytes or more makes print, query, remove, and add and
    set with a well-formed KEY=VALUE, exit with code 1 and the load error,
    writing nothing. *)
Theorem run_load_error (args : list string) (p fn : string) (e : error) (w : World) :
  LoadDictionary fn (fs w fn) = Err e ->
  (args = [p; "print"; fn] \/
   (exists x, args = [p; "query"; fn; x] \/ args = [p; "remove"; fn; x]) \/
   (exists x k v, parseKeyValue x = KVOk k v /\
      (args = [p; "add"; fn; x] \/ args = [p; "set"; fn; x]))) ->
  run args w = mkOutcome 1 [ErrLine "Error loading file: " e] None.
Proof.
  intros HL [-> | [[x [-> | ->]] | (x & k & v & Hkv & [-> | ->])]];
    unfold run; simpl String.eqb; cbv iota; try rewrite Hkv;
    unfold with_loaded; rewrite HL; reflexivity.
Qed.

(** X7: add of a key that the file already holds under any spelling with
    the same lower-case form exits with code 1, naming the key given and
    the spelling found first, and writes nothing. *)
Theorem run_add_exists (p fn kv k v : string) (w : World) (d : Dictionary)
    (i : nat) (e : Entry) :
  parseKeyValue kv = KVOk k v -> LoadDictionary fn (fs w fn) = Ok d ->
  findEntryCaseInsensitive d k = Some (i, e) ->
  run [p; "add"; fn; kv] w =
    mkOutcome 1 [Line ("Error: key '" ++ k ++ "' already exists (as '" ++ Key e ++ "')")] None.
Proof.
  intros Hkv HL Hf. unfold run; simpl String.eqb; cbv iota. rewrite Hkv.
  unfold with_loaded. rewrite HL. unfold KeyExists. rewrite Hf. reflexivity.
Qed.

(** X8: add or set on a file that does not exist writes the file with the
    single line [KEY = "VALUE"] (the value escaped); the exit code is 0 if
    that write succeeds and 1 with the save error otherwise. *)
Theorem run_create (p cmd fn kv k v : string) (w : World) :
  fs w fn = NotExist -> parseKeyValue kv = KVOk k v -> cmd = "add" \/ cmd = "set" ->
  run [p; cmd; fn; kv] w =
    if save_ok w fn then mkOutcome 0 [] (Some (fn, (k ++ " = " ++ quoted v) ++ str1 nl))
    else mkOutcome 1 [SaveErrLine] (Some (fn, (k ++ " = " ++ quoted v) ++ str1 nl)).
Proof.
  intros Hfs Hkv Hcmd. destruct (parse_kv_key _ _ _ Hkv) as [_ [Ht Hn]].
  destruct (TrimSpace_fixed k Ht) as [_ Hr].
  assert (HS : Save (mkDict fn [new_entry k v]) = (k ++ " = " ++ quoted v) ++ str1 nl).
  { unfold Save, save_lines. cbn [Entries map unlines fold_right].
    rewrite save_new_entry by assumption. now rewrite append_nil_r. }
  destruct Hcmd as [-> | ->]; unfold run; simpl String.eqb; cbv iota; rewrite Hkv;
    unfold with_loaded; rewrite Hfs; cbn [LoadDictionary].
  - unfold KeyExists, findEntryCaseInsensitive. cbn [Entries find_from].
    unfold Add, KeyExists, findEntryCaseInsensitive. cbn [Entries find_from Filename app].
    unfold save_to. now rewrite HS.
  - unfold Set_, normalizeKeyCase, findEntryCaseInsensitive. cbn [Entries find_from Filename app].
    unfold save_to. now rewrite HS.
Qed.

Lemma Add_save_lines_nonl (fn : string) (f : FileState) (d d' : Dictionary) (k v : string) :
  LoadDictionary fn f = Ok d -> Add d k v = Ok d' ->
  ~ In eqc (L k) -> rtrim (L k) = L k -> nonl_line k -> nonl_line v ->
  Forall nonl_line (save_lines d').
Proof.
  intros HL HA Hn Hr Hk Hv.
  destruct (Load_lines _ _ _ HL) as [_ [ls [Hes Hls]]].
  destruct (Add_ok _ _ _ _ HA) as [_ ->].
  unfold save_lines. cbn [Entries]. rewrite map_app, Hes. cbn [map].
  rewrite save_new_entry by assumption.
  apply Forall_app. split.
  - apply Forall_map, Forall_map. eapply Forall_impl; [|exact Hls].
    intros l Hl. now apply nonl_save_line.
  - apply Forall_cons; [now apply nonl_new_line|apply Forall_nil].
Qed.

Lemma Query_same_lower (d : Dictionary) (k k' v : string) :
  String.eqb (ToLower k') (ToLower k) = true -> Query d k = Ok v -> Query d k' = Ok v.
Proof.
  intros H. apply String.eqb_eq in H. unfold Query, findEntryCaseInsensitive. rewrite H.
  destruct (find_from (ToLower k) (Entries d) 0) as [[? ?]|]; auto; discriminate.
Qed.

(** X9: after a successful add of [KEY=VALUE], a query of the written file
    with the key in any spelling of the same lower-case form prints the
    value, when the key has no newline and does not start with '#', the
    value has no newline and does not end in a backslash, and every line
    of the file is shorter than 65536 bytes. *)
Theorem run_add_query (p p' fn kv k k' v b : string) (w w' : World) :
  parseKeyValue kv = KVOk k v ->
  run [p; "add"; fn; kv] w = mkOutcome 0 [] (Some (fn, b)) ->
  contains nl k = false -> has_prefix hash k = false ->
  contains nl v = false -> String.get (String.length v - 1) v <> Some bslash ->
  forallb (fun l => String.length l <? MaxScanTokenSize) (split_lines b) = true ->
  fs w' fn = Contents b ->
  String.eqb (ToLower k') (ToLower k) = true ->
  run [p'; "query"; fn; k'] w' = mkOutcome 0 [Line v] None.
Proof.
  intros Hkv H Hkn Hkh Hvn Hvb Hlen Hfs Hk'.
  destruct (parse_kv_key _ _ _ Hkv) as [_ [Ht Hn]].
  destruct (TrimSpace_fixed k Ht) as [_ Hr].
  unfold run in H; simpl String.eqb in H; cbv iota in H. rewrite Hkv in H.
  unfold with_loaded in H.
  destruct (LoadDictionary fn (fs w fn)) as [d|e] eqn:HL; [|discriminate].
  destruct (KeyExists d k); [discriminate|].
  destruct (Add d k v) as [d'|e] eqn:HA; [|discriminate].
  unfold save_to in H. destruct (save_ok w fn); [|discriminate].
  injection H as <-.
  assert (Hnl : Forall nonl_line (save_lines d')).
  { apply (Add_save_lines_nonl fn (fs w fn) d d' k v);
      [exact HL|exact HA|exact Hn|exact Hr|apply Claims.contains_false_nonl, Hkn
      |apply Claims.contains_false_nonl, Hvn]. }
  unfold Save in Hlen. rewrite split_lines_unlines in Hlen by exact Hnl.
  destruct (add_roundtrip fn (fs w fn) d d' k v HL HA Hn (Claims.contains_false_nonl _ Hkn) Ht Hkh
              (lastc_get _ _ Hvb) (Claims.contains_false_nonl _ Hvn) (Claims.lengths_ok _ Hlen))
    as [_ [d'' [HL'' HQ]]].
  unfold run; simpl String.eqb; cbv iota. unfold with_loaded. rewrite Hfs, HL''.
  rewrite (Query_same_lower _ _ _ _ Hk' HQ). reflexivity.
Qed.

End RunTables.

Lemma run_written_witness :
  exists b, written (run ["vmxtool"; "set"; "a.vmx"; "memsize=1024"] world_empty) =
              Some ("a.vmx", b) /\
  exists p cmd x, ["vmxtool"; "set"; "a.vmx"; "memsize=1024"] = [p; cmd; "a.vmx"; x] /\
    (cmd = "add" \/ cmd = "set" \/ cmd = "remove") /\
    (code (run ["vmxtool"; "set"; "a.vmx"; "memsize=1024"] world_empty) = 0 <->
     save_ok world_empty "a.vmx" = true).
Proof.
  eexists. split; [vm_compute; reflexivity|].
  apply (run_written _ _ "a.vmx" ("memsize = " ++ quoted "1024" ++ str1 nl)).
  vm_compute. reflexivity.
Defined.

Lemma run_kv_error_witness :
  parseKeyValue "memsize" = KVErr ErrInvalidFormat /\
  run ["vmxtool"; "add"; "a.vmx"; "memsize"] world_empty =
    mkOutcome 1 [Line ("Error: " ++ kv_message ErrInvalidFormat)] None.
Proof.
  split; [vm_compute; reflexivity|].
  apply run_kv_error; [vm_compute; reflexivity|left; reflexivity].
Defined.

Lemma run_load_error_witness :
  LoadDictionary "a.vmx" (fs world_unreadable "a.vmx") = Err ErrOpen /\
  run ["vmxtool"; "query"; "a.vmx"; "memsize"] world_unreadable =
    mkOutcome 1 [ErrLine "Error loading file: " ErrOpen] None.
Proof.
  split; [reflexivity|].
  apply (run_load_error _ "vmxtool" "a.vmx"); [reflexivity|].
  right. left. exists "memsize". left. reflexivity.
Defined.

Lemma run_add_exists_witness :
  exists d i e,
    parseKeyValue "memsize=2" = KVOk "memsize" "2" /\
    LoadDictionary "a.vmx" (fs world_mem "a.vmx") = Ok d /\
    findEntryCaseInsensitive d "memsize" = Some (i, e) /\
    run ["vmxtool"; "add"; "a.vmx"; "memsize=2"] world_mem =
      mkOutcome 1 [Line ("Error: key '" ++ "memsize" ++ "' already exists (as '"
                         ++ Key e ++ "')")] None.
Proof.
  do 3 eexists.
  split; [vm_compute; reflexivity|]. split; [vm_compute; reflexivity|].
  split; [vm_compute; reflexivity|].
  eapply run_add_exists; vm_compute; reflexivity.
Defined.

Lemma run_create_witness :
  fs world_empty "a.vmx" = NotExist /\
  parseKeyValue "memsize = 1024" = KVOk "memsize" "1024" /\
  run ["vmxtool"; "set"; "a.vmx"; "memsize = 1024"] world_empty =
    if save_ok world_empty "a.vmx"
    then mkOutcome 0 [] (Some ("a.vmx", ("memsize" ++ " = " ++ quoted "1024") ++ str1 nl))
    else mkOutcome 1 [SaveErrLine]
           (Some ("a.vmx", ("memsize" ++ " = " ++ quoted "1024") ++ str1 nl)).
Proof.
  split; [reflexivity|]. split; [vm_compute; reflexivity|].
  apply run_create; [reflexivity|vm_compute; reflexivity|right; reflexivity].
Defined.

Lemma run_add_query_witness :
  exists b,
    run ["vmxtool"; "add"; "a.vmx"; "memsize=1024"] world_empty =
      mkOutcome 0 [] (Some ("a.vmx", b)) /\
    run ["vmxtool"; "query"; "a.vmx"; "MemSize"] (mkWorld (fun _ => Contents b) (fun _ => true)) =
      mkOutcome 0 [Line "1024"] None.
Proof.
  eexists. split; [vm_compute; reflexivity|].
  eapply (run_add_query "vmxtool" "vmxtool" "a.vmx" "memsize=1024" "memsize" "MemSize" "1024"
           _ world_empty);
    try (vm_compute; reflexivity).
  vm_compute. discriminate.
Defined.

Section DictTables.
Context {CT : CaseTables}.

Lemma Key_set_entry (e : Entry) (v : string) : Key (set_entry e v) = Key e.
Proof. reflexivity. Qed.

Lemma set_entry_twice (e : Entry) (v1 v2 : string) :
  set_entry (set_entry e v1) v2 = set_entry e v2.
Proof. reflexivity. Qed.

Lemma set_new_entry (k v1 v2 : string) : set_entry (new_entry k v1) v2 = new_entry k v2.
Proof. reflexivity. Qed.

Lemma replace_nth_twice {A} (i : nat) (x y : A) (l : list A) :
  replace_nth i x (replace_nth i y l) = replace_nth i x l.
Proof.
  revert i; induction l as [|z l IH]; intros [|i]; simpl; f_equal; auto.
Qed.

Lemma Set_found (d : Dictionary) (k v : string) (i : nat) (e : Entry) :
  findEntryCaseInsensitive d k = Some (i, e) ->
  Set_ d k v = mkDict (Filename d) (replace_nth i (set_entry e v) (Entries d)).
Proof. intros H. unfold Set_. now rewrite H. Qed.

Lemma Set_not_found (d : Dictionary) (k v : string) :
  findEntryCaseInsensitive d k = None ->
  Set_ d k v = mkDict (Filename d) (app (Entries d) [new_entry k v]).
Proof. intros H. unfold Set_, normalizeKeyCase. now rewrite H. Qed.

(** X10: setting a key twice, the second time under any spelling with the
    same lower-case form, gives the same document as setting it once to the
    second value. *)
Theorem Set_Set (d : Dictionary) (k1 k2 v1 v2 : string) :
  String.eqb (ToLower k2) (ToLower k1) = true ->
  Set_ (Set_ d k1 v1) k2 v2 = Set_ d k1 v2.
Proof.
  intros Hk. apply String.eqb_eq in Hk.
  destruct (findEntryCaseInsensitive d k1) as [[i e]|] eqn:Hf.
  - rewrite (Set_found d k1 v1 i e Hf), (Set_found d k1 v2 i e Hf).
    assert (Hf' : findEntryCaseInsensitive
                    (mkDict (Filename d) (replace_nth i (set_entry e v1) (Entries d))) k2 =
                  Some (i, set_entry e v1)).
    { unfold findEntryCaseInsensitive in *. cbn [Entries]. rewrite Hk.
      replace i with (i - 0) at 1 by lia. apply find_from_replace with (e := e); [exact Hf|].
      rewrite Key_set_entry. exact (proj2 (proj2 (find_from_some _ _ _ _ _ Hf))). }
    rewrite (Set_found _ _ _ _ _ Hf'). cbn [Filename Entries].
    now rewrite set_entry_twice, replace_nth_twice.
  - rewrite (Set_not_found d k1 v1 Hf), (Set_not_found d k1 v2 Hf).
    assert (Hf' : findEntryCaseInsensitive
                    (mkDict (Filename d) (app (Entries d) [new_entry k1 v1])) k2 =
                  Some (length (Entries d), new_entry k1 v1)).
    { unfold findEntryCaseInsensitive. cbn [Entries]. rewrite Hk. now apply find_new_entry. }
    rewrite (Set_found _ _ _ _ _ Hf'). cbn [Filename Entries].
    now rewrite set_new_entry, replace_nth_app_last.
Qed.

Lemma find_from_replace_neq (lk : string) (es : list Entry) (i0 j : nat) (x : Entry) :
  (forall y, nth_error es j = Some y -> ToLower (Key y) <> lk) -> ToLower (Key x) <> lk ->
  find_from lk (replace_nth j x es) i0 = find_from lk es i0.
Proof.
  revert i0 j; induction es as [|y es IH]; intros i0 [|j] Hy Hx; simpl; auto.
  - assert (Hy' : ToLower (Key y) <> lk) by (apply Hy; reflexivity).
    apply String.eqb_neq in Hx, Hy'. now rewrite Hx, Hy'.
  - destruct (String.eqb (ToLower (Key y)) lk); auto.
Qed.

Lemma find_from_app_neq (lk : string) (es : list Entry) (i0 : nat) (x : Entry) :
  ToLower (Key x) <> lk -> find_from lk (app es [x]) i0 = find_from lk es i0.
Proof.
  revert i0; induction es as [|y es IH]; intros i0 Hx; simpl.
  - apply String.eqb_neq in Hx. now rewrite Hx.
  - destruct (String.eqb (ToLower (Key y)) lk); auto.
Qed.

(** X11: [Set] and [Add] leave the lookup of every other key alone: a key
    whose lower-case form differs from the one set or added queries to the
    same result before and after. *)
Theorem Set_Add_other (d d' : Dictionary) (k k' v : string) :
  ToLower k' <> ToLower k ->
  Query (Set_ d k v) k' = Query d k' /\ (Add d k v = Ok d' -> Query d' k' = Query d k').
Proof.
  intros Hne. split.
  - destruct (findEntryCaseInsensitive d k) as [[i e]|] eqn:Hf.
    + rewrite (Set_found d k v i e Hf). unfold Query, findEntryCaseInsensitive. cbn [Entries].
      rewrite find_from_replace_neq; [reflexivity| |].
      * intros y Hy. destruct (find_lookup _ _ _ _ Hf) as [He _].
        rewrite He in Hy. injection Hy as <-.
        destruct (find_from_some _ _ _ _ _ Hf) as (_ & _ & Hk).
        apply String.eqb_eq in Hk. rewrite Hk. auto.
      * rewrite Key_set_entry. destruct (find_from_some _ _ _ _ _ Hf) as (_ & _ & Hk).
        apply String.eqb_eq in Hk. rewrite Hk. auto.
    + rewrite (Set_not_found d k v Hf). unfold Query, findEntryCaseInsensitive. cbn [Entries].
      rewrite find_from_app_neq; [reflexivity|]. cbn. auto.
  - intros HA. destruct (Add_ok _ _ _ _ HA) as [_ ->].
    unfold Query, findEntryCaseInsensitive. cbn [Entries].
    rewrite find_from_app_neq; [reflexivity|]. cbn. auto.
Qed.

Lemma equal_fold_runes_refl (l : list Z) : equal_fold_runes l l = true.
Proof. induction l as [|r l IH]; simpl; [reflexivity|]. now rewrite Z.eqb_refl. Qed.

Lemma equal_fold_bytes_refl (l : list ascii) : equal_fold_bytes l l = true.
Proof.
  induction l as [|c l IH]; simpl; [reflexivity|].
  destruct ((128 <=? zbyte c) || (128 <=? zbyte c))%Z; [apply equal_fold_runes_refl|].
  now rewrite Z.eqb_refl.
Qed.

Lemma EqualFold_refl (s : string) : EqualFold s s = true.
Proof. apply equal_fold_bytes_refl. Qed.

Lemma remove_from_spec (k : string) (es : list Entry) :
  match remove_from k es with
  | Some es' => exists pre e post, es = app pre (e :: post) /\ no_fold_match k pre = true /\
                  EqualFold (Key e) k = true /\ es' = app pre post
  | None => no_fold_match k es = true
  end.
Proof.
  induction es as [|x es IH]; simpl; [reflexivity|].
  destruct (EqualFold (Key x) k) eqn:Hx.
  - exists [], x, es. auto.
  - destruct (remove_from k es) as [es'|].
    + destruct IH as (pre & e & post & -> & Hpre & He & ->).
      exists (x :: pre), e, post. simpl. rewrite Hx. auto.
    + simpl. exact IH.
Qed.

(** X12: [Remove] deletes exactly the first entry whose key equals the key
    given up to case folding ([strings.EqualFold]): the saved file loses
    exactly that entry's line and keeps every other line in order.  It
    fails, with "key does not exist", only when no key matches. *)
Theorem Remove_spec (d : Dictionary) (k : string) :
  match Remove d k with
  | Ok d' => exists pre e post,
      Entries d = app pre (e :: post) /\ no_fold_match k pre = true /\
      EqualFold (Key e) k = true /\ d' = mkDict (Filename d) (app pre post) /\
      Save d = Save (mkDict (Filename d) pre) ++ save_line e ++ str1 nl ++
               Save (mkDict (Filename d) post) /\
      Save d' = Save (mkDict (Filename d) pre) ++ Save (mkDict (Filename d) post)
  | Err er => er = ErrKeyNotExist k /\ no_fold_match k (Entries d) = true
  end.
Proof.
  unfold Remove. pose proof (remove_from_spec k (Entries d)) as H.
  destruct (remove_from k (Entries d)) as [es'|]; [|auto].
  destruct H as (pre & e & post & Hes & Hpre & He & ->).
  exists pre, e, post. do 4 (split; [assumption || reflexivity|]). split.
  - destruct d as [fn es]. cbn [Entries Filename] in *. subst es.
    rewrite save_lines_app. reflexivity.
  - apply save_lines_app.
Qed.

(** X13: removing a key just added gives back the document before the
    add, when no earlier key matches it under [strings.EqualFold]. *)
Theorem Add_Remove (d d' : Dictionary) (k v : string) :
  Add d k v = Ok d' -> no_fold_match k (Entries d) = true -> Remove d' k = Ok d.
Proof.
  intros HA Hno. destruct (Add_ok _ _ _ _ HA) as [_ ->].
  unfold Remove. cbn [Entries Filename].
  assert (H : remove_from k (app (Entries d) [new_entry k v]) = Some (Entries d)).
  { revert Hno. generalize (Entries d) as es.
    induction es as [|x es IH]; simpl; intros Hno.
    - now rewrite EqualFold_refl.
    - apply andb_true_iff in Hno as [Hx Hno]. apply negb_true_iff in Hx.
      rewrite Hx, IH by exact Hno. reflexivity. }
  rewrite H. destruct d. reflexivity.
Qed.

End DictTables.

Lemma split_lines_cons (c : ascii) (t : string) :
  split_lines (String c t) =
  if Ascii.eqb c nl then "" :: split_lines t
  else match split_lines t with [] => [str1 c] | l :: ls => String c l :: ls end.
Proof. reflexivity. Qed.

Lemma split_lines_final_nl (s : string) :
  s <> "" -> String.get (String.length s - 1) s <> Some nl ->
  split_lines (s ++ str1 nl) = split_lines s.
Proof.
  induction s as [|c s IH]; intros Hne Hl; [congruence|].
  destruct s as [|c' s'].
  - simpl in Hl. assert (Hc : c <> nl) by congruence. apply Ascii.eqb_neq in Hc.
    simpl. rewrite Hc. reflexivity.
  - assert (E : String.length (String c (String c' s')) - 1
                = S (String.length (String c' s') - 1)) by (simpl; lia).
    rewrite E in Hl. cbn [String.get] in Hl.
    change (String c (String c' s') ++ str1 nl) with (String c (String c' s' ++ str1 nl)).
    rewrite (split_lines_cons c (String c' s' ++ str1 nl)), (split_lines_cons c (String c' s')).
    rewrite IH by (discriminate || exact Hl). reflexivity.
Qed.

(** X14: a file whose last byte is not a newline loads the same with or
    without one more newline at its end. *)
Theorem Load_final_newline (fn s : string) :
  s <> "" -> String.get (String.length s - 1) s <> Some nl ->
  LoadDictionary fn (Contents (s ++ str1 nl)) = LoadDictionary fn (Contents s).
Proof.
  intros Hne Hl. unfold LoadDictionary, scan_lines.
  rewrite split_lines_final_nl by assumption. reflexivity.
Qed.

Lemma dropCR_cr (l : string) : dropCR (l ++ str1 cr) = l.
Proof.
  unfold dropCR. change (list_ascii_of_string (l ++ str1 cr)) with (L (l ++ str1 cr)).
  rewrite L_app, rev_app_distr.
  change (rev (L (str1 cr))) with [cr]. cbn [app].
  rewrite Ascii.eqb_refl, rev_involutive. apply Str_L.
Qed.

(** X15: Windows line ends load as Unix ones: lines ended by CR LF give
    the same document as the same lines ended by LF, for lines that do not
    themselves end in CR and are shorter than 65535 bytes. *)
Theorem Load_crlf (fn : string) (ls : list string) :
  Forall nonl_line ls ->
  Forall (fun l => String.get (String.length l - 1) l <> Some cr) ls ->
  Forall (fun l => S (String.length l) < MaxScanTokenSize) ls ->
  LoadDictionary fn (Contents (unlines (map (fun l => l ++ str1 cr) ls))) =
  LoadDictionary fn (Contents (unlines ls)).
Proof.
  intros Hn Hcr Hlen. unfold LoadDictionary.
  rewrite !scan_lines_unlines.
  - assert (E : map dropCR (map (fun l => l ++ str1 cr) ls) = map dropCR ls).
    { rewrite map_map. apply map_ext_in. intros l Hl.
      rewrite dropCR_cr. symmetry. apply dropCR_id, lastc_get.
      exact (proj1 (Forall_forall _ ls) Hcr l Hl). }
    rewrite E. reflexivity.
  - exact Hn.
  - eapply Forall_impl; [|exact Hlen]. simpl. intros l Hl. lia.
  - apply Forall_map. eapply Forall_impl; [|exact Hn]. intros l Hl Hin.
    rewrite L_app in Hin. apply in_app_or in Hin as [Hin|[Hin|[]]]; [exact (Hl Hin)|discriminate].
  - apply Forall_map. eapply Forall_impl; [|exact Hlen]. intros l Hl.
    rewrite length_append. change (String.length (str1 cr)) with 1. cbv beta in Hl. lia.
Qed.


Lemma scan_quote_bslash (w : string) : forall prev i,
  lastc prev w = Some bslash -> scan_quote prev (escapeQuotes w ++ str1 dq) i = None.
Proof.
  induction w as [|c w IH]; intros prev i Hl; simpl in *.
  - subst prev. reflexivity.
  - destruct (Ascii.eqb c dq) eqn:Edq; simpl.
    + apply Ascii.eqb_eq in Edq. subst c. apply IH. exact Hl.
    + rewrite Edq. simpl. apply IH. exact Hl.
Qed.

Lemma findClosingQuote_quoted_scan (w : string) :
  findClosingQuote (quoted w) 1 = scan_quote (Some dq) (escapeQuotes w ++ str1 dq) 1.
Proof.
  unfold findClosingQuote, slice_from. rewrite length_quoted.
  replace (2 + String.length (escapeQuotes w) - 1)
    with (String.length (escapeQuotes w ++ str1 dq)) by (rewrite length_append; simpl; lia).
  unfold quoted.
  change (str1 dq ++ escapeQuotes w ++ str1 dq) with (String dq (escapeQuotes w ++ str1 dq)).
  rewrite substring_shift, substring_0_full. reflexivity.
Qed.

(** X17: reading back a value as [Save] quotes it, [findClosingQuote] finds
    the closing quote [Save] wrote, unless the value ends in a backslash:
    then that backslash makes the closing quote look escaped, no closing
    quote is found, and [parse_line]'s value parser keeps the whole quoted
    text, quotes and backslashes included, as the value. *)
Theorem findClosingQuote_quoted (w : string) :
  findClosingQuote (quoted w) 1 =
    (if match String.get (String.length w - 1) w with
        | Some c => Ascii.eqb c bslash | None => false end
     then None else Some (1 + String.length (escapeQuotes w))) /\
  parse_value (quoted w) =
    (if match String.get (String.length w - 1) w with
        | Some c => Ascii.eqb c bslash | None => false end
     then (quoted w, "", "") else (w, "", "")).
Proof.
  rewrite <- lastc_get_eq.
  destruct (match lastc None w with Some c => Ascii.eqb c bslash | None => false end) eqn:E.
  - assert (Hl : lastc None w = Some bslash).
    { destruct (lastc None w) as [c|]; [|discriminate].
      apply Ascii.eqb_eq in E. now subst. }
    assert (Hf : findClosingQuote (quoted w) 1 = None).
    { rewrite findClosingQuote_quoted_scan. apply scan_quote_bslash.
      destruct w as [|c w']; [discriminate|exact Hl]. }
    split; [exact Hf|]. unfold parse_value.
    assert (Hp : has_prefix dq (quoted w) = true) by reflexivity.
    rewrite Hp, Hf. reflexivity.
  - assert (Hl : lastc None w <> Some bslash).
    { intros H. rewrite H, Ascii.eqb_refl in E. discriminate. }
    split; [|now apply parse_value_quoted].
    rewrite findClosingQuote_quoted_scan. apply scan_quote_escaped.
    destruct w as [|c w']; [discriminate|exact Hl].
Qed.

Section ReloadTables.
Context {CT : CaseTables}.

Lemma find_from_keys_iff (lk : string) (es es' : list Entry) :
  map Key es = map Key es' ->
  (find_from lk es 0 = None <-> find_from lk es' 0 = None).
Proof. intros H. split; apply find_from_keys; congruence. Qed.

(** X18: saving a loaded document and loading the saved bytes again gives
    the same keys in the same order, so every key exists afterwards exactly
    when it existed before (for files whose saved lines are shorter than
    65536 bytes). *)
Theorem Save_reload_keys (fn : string) (f : FileState) (d : Dictionary) :
  LoadDictionary fn f = Ok d ->
  forallb (fun l => String.length l <? MaxScanTokenSize) (save_lines d) = true ->
  exists d'', LoadDictionary fn (Contents (Save d)) = Ok d'' /\
    map Key (Entries d'') = map Key (Entries d) /\
    (forall k, KeyExists d'' k = KeyExists d k).
Proof.
  intros HL Hlen. destruct (Load_lines _ _ _ HL) as [_ [ls [Hes Hls]]].
  assert (Hnl : Forall nonl_line (save_lines d)).
  { unfold save_lines. rewrite Hes. apply Forall_map, Forall_map.
    eapply Forall_impl; [|exact Hls]. intros l Hl. now apply nonl_save_line. }
  unfold Save. cbn [LoadDictionary].
  rewrite scan_lines_unlines by (exact Hnl || exact (Claims.lengths_ok _ Hlen)).
  eexists. split; [reflexivity|].
  assert (Hk : map Key (map parse_line (map dropCR (save_lines d))) = map Key (Entries d)).
  { unfold save_lines. rewrite Hes. apply reload_keys. }
  split; [exact Hk|].
  intros k. unfold KeyExists, findEntryCaseInsensitive. cbn [Entries].
  pose proof (find_from_keys_iff (ToLower k) _ _ Hk) as Hiff.
  destruct (find_from (ToLower k) (map parse_line (map dropCR (save_lines d))) 0),
           (find_from (ToLower k) (Entries d) 0); try reflexivity.
  - exfalso. assert (H : @None (nat * Entry) = None) by reflexivity.
    apply Hiff in H. discriminate.
  - exfalso. assert (H : @None (nat * Entry) = None) by reflexivity.
    apply Hiff in H. discriminate.
Qed.

End ReloadTables.

Lemma Set_Set_witness :
  String.eqb (ToLower "MEMSIZE") (ToLower "memSize") = true /\
  Set_ (Set_ doc_mem "memSize" "2") "MEMSIZE" "4" = Set_ doc_mem "memSize" "4".
Proof.
  assert (H : String.eqb (ToLower "MEMSIZE") (ToLower "memSize") = true)
    by (vm_compute; reflexivity).
  split; [exact H|]. apply Set_Set. exact H.
Defined.

Lemma Set_Add_other_witness :
  exists d', Add doc_mem "numvcpus" "2" = Ok d' /\
  ToLower "memSize" <> ToLower "numvcpus" /\
  Query (Set_ doc_mem "numvcpus" "2") "memSize" = Query doc_mem "memSize" /\
  Query d' "memSize" = Query doc_mem "memSize".
Proof.
  exists (mkDict "a.vmx" (app (Entries doc_mem) [new_entry "numvcpus" "2"])).
  split; [vm_compute; reflexivity|].
  assert (H : ToLower "memSize" <> ToLower "numvcpus") by (vm_compute; discriminate).
  split; [exact H|].
  destruct (Set_Add_other doc_mem (mkDict "a.vmx" (app (Entries doc_mem) [new_entry "numvcpus" "2"]))
              "numvcpus" "memSize" "2" H) as [H1 H2].
  split; [exact H1|]. apply H2. vm_compute. reflexivity.
Defined.

Lemma Add_Remove_witness :
  exists d', Add doc_mem "numvcpus" "2" = Ok d' /\
    no_fold_match "numvcpus" (Entries doc_mem) = true /\ Remove d' "numvcpus" = Ok doc_mem.
Proof.
  eexists. split; [vm_compute; reflexivity|]. split; [vm_compute; reflexivity|].
  apply (Add_Remove doc_mem _ "numvcpus" "2"); vm_compute; reflexivity.
Defined.

Lemma Load_final_newline_witness :
  "memSize = 1" <> "" /\ String.get (String.length "memSize = 1" - 1) "memSize = 1" <> Some nl /\
  LoadDictionary "a.vmx" (Contents ("memSize = 1" ++ str1 nl)) =
  LoadDictionary "a.vmx" (Contents "memSize = 1").
Proof.
  assert (H1 : "memSize = 1" <> "") by discriminate.
  assert (H2 : String.get (String.length "memSize = 1" - 1) "memSize = 1" <> Some nl)
    by (vm_compute; discriminate).
  split; [exact H1|]. split; [exact H2|]. apply Load_final_newline; assumption.
Defined.

Lemma Load_crlf_witness :
  LoadDictionary "a.vmx" (Contents (unlines (map (fun l => l ++ str1 cr) ["# c"; "memSize = 1"]))) =
  LoadDictionary "a.vmx" (Contents (unlines ["# c"; "memSize = 1"])).
Proof.
  apply Load_crlf.
  - repeat apply Forall_cons; try apply Forall_nil;
      apply Claims.contains_false_nonl; reflexivity.
  - repeat apply Forall_cons; try apply Forall_nil; simpl; discriminate.
  - repeat apply Forall_cons; try apply Forall_nil;
      apply Nat.ltb_lt; reflexivity.
Defined.

Lemma Save_reload_keys_witness :
  exists d, LoadDictionary "a.vmx" (fs world_mem "a.vmx") = Ok d /\
  exists d'', LoadDictionary "a.vmx" (Contents (Save d)) = Ok d'' /\
    map Key (Entries d'') = map Key (Entries d) /\
    (forall k, KeyExists d'' k = KeyExists d k).
Proof.
  eexists. split; [vm_compute; reflexivity|].
  apply (Save_reload_keys "a.vmx" (fs world_mem "a.vmx")); vm_compute; reflexivity.
Defined.

End Extras.
